(** * Monicelli AST layer (src/Nodes.hpp): a shallow embedding

    The header declares the node classes of the compiler front end, the
    equality and hash functions used as container keys, the [Program]
    aggregate and the dispatch of [emit] to a backend.  Classes become
    records and inductive types, member functions become functions that
    take the object first, mutators return the updated object. *)

From Stdlib Require Import List String Bool NArith ZArith.
From Stdlib Require Import Floats.SpecFloat.
Import ListNotations.

Local Open Scope N_scope.

Set Implicit Arguments.

(* ================================================================== *)
(** ** Vocabularies *)

(** [enum class Type].  The name [Type] is reserved, hence [Type_]. *)
Inductive Type_ : Set :=
| INT | CHAR | FLOAT | BOOL | DOUBLE | VOID | UNKNOWN.

(** [enum class Operator]. *)
Inductive Operator : Set :=
| PLUS | MINUS | TIMES | DIV
| SHL | SHR
| LT | GT | GTE | LTE | EQ.

Definition Operator_eqb (a b : Operator) : bool :=
  match a, b with
  | PLUS, PLUS | MINUS, MINUS | TIMES, TIMES | DIV, DIV
  | SHL, SHL | SHR, SHR
  | LT, LT | GT, GT | GTE, GTE | LTE, LTE | EQ, EQ => true
  | _, _ => false
  end.

(* ================================================================== *)
(** ** Source locations *)

(** Modelled from the spec: [location.hh] is generated by the parser
    generator and is not part of the header.  The spec calls a location
    an opaque source-position value (line, column, or range); it is taken
    here as a range between two positions, each a line and a column in an
    optional file. *)
Record position : Set := mkPosition {
  filename : option string;
  line : N;
  column : N
}.

Record location : Set := mkLocation {
  begin_ : position;
  end_ : position
}.

Definition position_initial : position := mkPosition None 1 1.

(** The value of a default-constructed [location] member. *)
Definition location_initial : location :=
  mkLocation position_initial position_initial.

(** [class Localizable]: one private member [loc], a setter that
    assigns it and a getter that reads it. *)
Record Localizable : Set := mkLocalizable { loc : location }.

Definition Localizable_new : Localizable := mkLocalizable location_initial.

(** [void setLocation(location const& l) { loc = l; }] *)
Definition setLocation (l : location) (self : Localizable) : Localizable :=
  mkLocalizable l.

(** [location const& getLocation() const { return loc; }] *)
Definition getLocation (self : Localizable) : location := loc self.

(* ================================================================== *)
(** ** Ownership containers *)

(** Modelled from the spec: [Pointers.hpp] is not part of the header.
    An owned slot holds zero or one child, and absence is a state of its
    own: [Pointer T] is either [nullptr] or the address of one owned
    object, written [ptr x]. *)
Inductive Pointer (T : Type) : Type :=
| nullptr : Pointer T
| ptr (x : T) : Pointer T.

Arguments nullptr {T}.
Arguments ptr {T} x.

(** The macro
    [#define maybe_return(val) if ((val) != nullptr) return *(val); else return boost::none;]
    with [boost::optional<T const&>] read as [option T]. *)
Definition maybe_return {T : Type} (val : Pointer T) : option T :=
  match val with
  | ptr x => Some x
  | nullptr => None
  end.

(** Modelled from the spec: an owned ordered sequence, insertion order
    significant. *)
Definition PointerList (T : Type) : Type := list T.

Definition push_back {T : Type} (l : PointerList T) (x : T) : PointerList T :=
  l ++ [x].

(** Modelled from the spec: an owned deduplicated set, order
    insignificant, duplicates collapsed by a caller-supplied equality and
    hash rule.  The elements are kept in a list; an element is found when
    a stored one has the same hash and compares equal, and [insert] of an
    element that is found leaves the set as it is. *)
Definition PointerSet (T : Type) : Type := list T.

Section PointerSetOps.
Variable T : Type.
Variable hash : T -> N.
Variable equal : T -> T -> bool.

Definition same_key (x y : T) : bool :=
  (hash y =? hash x) && equal y x.

Definition PointerSet_contains (s : PointerSet T) (x : T) : bool :=
  existsb (same_key x) s.

Definition PointerSet_insert (s : PointerSet T) (x : T) : PointerSet T :=
  if PointerSet_contains s x then s else s ++ [x].

(** Number of stored elements that compare equal to [x]. *)
Definition PointerSet_count (s : PointerSet T) (x : T) : nat :=
  List.length (filter (fun y => equal y x) s).

(** No two stored elements compare equal. *)
Fixpoint PointerSet_wf (s : PointerSet T) : bool :=
  match s with
  | [] => true
  | y :: s' => negb (existsb (fun z => equal z y) s') && PointerSet_wf s'
  end.
End PointerSetOps.

(* ================================================================== *)
(** ** Hash functions of the C++ library *)

(** [std::hash<std::string>] and [std::hash<bool>] are left to the
    implementation by the language; they are parameters of the model.  A
    [size_t] is a natural number. *)
Class StdHash : Type := {
  hash_string : string -> N;
  hash_bool : bool -> N
}.

(* ================================================================== *)
(** ** Simple expressions *)

(** [class Id]: a located node that owns its text. *)
Record Id : Set := mkId {
  Id_base : Localizable;
  Id_value : string
}.

(** [explicit Id(std::string const& c)]; the constructors from a
    [std::string *] and from a [char const*] store the same text.  The
    location is set afterwards. *)
Definition Id_new (c : string) : Id := mkId Localizable_new c.

Definition Id_getValue (self : Id) : string := Id_value self.

Definition Id_setLocation (l : location) (self : Id) : Id :=
  mkId (setLocation l (Id_base self)) (Id_value self).

Definition Id_getLocation (self : Id) : location :=
  getLocation (Id_base self).

(** [bool operator==(Id const& a, Id const& b) { return a.getValue() == b.getValue(); }] *)
Definition Id_operator_eq (a b : Id) : bool :=
  String.eqb (Id_getValue a) (Id_getValue b).

(** Modelled from the spec: the header declares no hash for [Id]; the spec
    gives identifiers equality and hash by string value.  The hash of an
    identifier is the library hash of its text, which is what
    [hash_value(FunctionPrototype)] computes from the name. *)
Definition Id_hash_value `{StdHash} (e : Id) : N :=
  hash_string (Id_getValue e).

(** [class Integer]: the payload is a C++ [long]. *)
Record Integer : Set := mkInteger {
  Integer_base : Localizable;
  Integer_value : Z
}.

Definition Integer_getValue (self : Integer) : Z := Integer_value self.

(** [class Float]: the payload is a C++ [double]. *)
Record Float : Set := mkFloat {
  Float_base : Localizable;
  Float_value : spec_float
}.

Definition Float_new (f : spec_float) : Float := mkFloat Localizable_new f.
Definition Float_getValue (self : Float) : spec_float := Float_value self.

(* ================================================================== *)
(** ** Expressions *)

(** The abstract class [Expression] is the sum of its concrete
    subclasses.  A member that the class reads through [*member] is an
    owned child that is present; a member read through [maybe_return] is
    a [Pointer] that may be null. *)
Inductive Expression : Type :=
| Expr_Id (e : Id)
| Expr_Integer (e : Integer)
| Expr_Float (e : Float)
| Expr_FunctionCall (e : FunctionCall)
| Expr_BinaryExpression (e : BinaryExpression)
with FunctionCall : Type :=
| mkFunctionCall (base : Localizable) (name : Id)
    (args : PointerList Expression)
with BinaryExpression : Type :=
| mkBinaryExpression (base : Localizable) (left : Expression)
    (op : Operator) (right : Expression).

(** [FunctionCall(Id *n, PointerList<Expression> *a)] *)
Definition FunctionCall_new (n : Id) (a : PointerList Expression)
  : FunctionCall := mkFunctionCall Localizable_new n a.

Definition FunctionCall_getName (self : FunctionCall) : Id :=
  match self with mkFunctionCall _ n _ => n end.

Definition FunctionCall_getArgs (self : FunctionCall)
  : PointerList Expression :=
  match self with mkFunctionCall _ _ a => a end.

(** [BinaryExpression(Expression *l, Operator op, Expression *r)] *)
Definition BinaryExpression_new (l : Expression) (op : Operator)
  (r : Expression) : BinaryExpression :=
  mkBinaryExpression Localizable_new l op r.

Definition BinaryExpression_getLeft (self : BinaryExpression) : Expression :=
  match self with mkBinaryExpression _ l _ _ => l end.

Definition BinaryExpression_getRight (self : BinaryExpression) : Expression :=
  match self with mkBinaryExpression _ _ _ r => r end.

Definition BinaryExpression_getOperator (self : BinaryExpression) : Operator :=
  match self with mkBinaryExpression _ _ o _ => o end.

(** The subclasses of [BinaryExpression] add nothing but a constructor
    that fixes the operator. *)
Definition ExpLt (l r : Expression) := BinaryExpression_new l LT r.
Definition ExpGt (l r : Expression) := BinaryExpression_new l GT r.
Definition ExpLte (l r : Expression) := BinaryExpression_new l LTE r.
Definition ExpGte (l r : Expression) := BinaryExpression_new l GTE r.
Definition ExpPlus (l r : Expression) := BinaryExpression_new l PLUS r.
Definition ExpMinus (l r : Expression) := BinaryExpression_new l MINUS r.
Definition ExpTimes (l r : Expression) := BinaryExpression_new l TIMES r.
Definition ExpDiv (l r : Expression) := BinaryExpression_new l DIV r.
Definition ExpShl (l r : Expression) := BinaryExpression_new l SHL r.
Definition ExpShr (l r : Expression) := BinaryExpression_new l SHR r.

(** [class SemiExpression: public Localizable] *)
Record SemiExpression : Type := mkSemiExpression {
  SemiExpression_base : Localizable;
  SemiExpression_op : Operator;
  SemiExpression_left : Expression
}.

(** [SemiExpression(Operator op, Expression *l)] *)
Definition SemiExpression_new (op : Operator) (l : Expression)
  : SemiExpression := mkSemiExpression Localizable_new op l.

Definition SemiExpression_getLeft (self : SemiExpression) : Expression :=
  SemiExpression_left self.

Definition SemiExpression_getOperator (self : SemiExpression) : Operator :=
  SemiExpression_op self.

Definition SemiExpEq (l : Expression) := SemiExpression_new EQ l.
Definition SemiExpLt (l : Expression) := SemiExpression_new LT l.
Definition SemiExpGt (l : Expression) := SemiExpression_new GT l.
Definition SemiExpLte (l : Expression) := SemiExpression_new LTE l.
Definition SemiExpGte (l : Expression) := SemiExpression_new GTE l.
Definition SemiExpPlus (l : Expression) := SemiExpression_new PLUS l.
Definition SemiExpMinus (l : Expression) := SemiExpression_new MINUS l.
Definition SemiExpTimes (l : Expression) := SemiExpression_new TIMES l.
Definition SemiExpDiv (l : Expression) := SemiExpression_new DIV l.
(** [SemiExpShl(Expression *l): SemiExpression(Operator::SHR, l) {}] *)
Definition SemiExpShl (l : Expression) := SemiExpression_new SHR l.
(** [SemiExpShr(Expression *l): SemiExpression(Operator::SHL, l) {}] *)
Definition SemiExpShr (l : Expression) := SemiExpression_new SHL l.

(* ================================================================== *)
(** ** Statements *)

(** [class Return]: the expression may be null. *)
Record Return : Type := mkReturn {
  Return_base : Localizable;
  Return_expression : Pointer Expression
}.

(** [explicit Return(Expression *e): expression(e) {}] *)
Definition Return_new (e : Pointer Expression) : Return :=
  mkReturn Localizable_new e.

(** [boost::optional<Expression const&> getExpression() const { maybe_return(expression); }] *)
Definition Return_getExpression (self : Return) : option Expression :=
  maybe_return (Return_expression self).

(** The inherited [setLocation] on a [Return]. *)
Definition Return_setLocation (l : location) (self : Return) : Return :=
  mkReturn (setLocation l (Return_base self)) (Return_expression self).

Record VarDeclaration : Type := mkVarDeclaration {
  VarDeclaration_base : Localizable;
  VarDeclaration_name : Id;
  VarDeclaration_point : bool;
  VarDeclaration_init : Pointer Expression;
  VarDeclaration_type : Type_
}.

(** [VarDeclaration(Id *n, Type t, bool p, Expression *i)] *)
Definition VarDeclaration_new (n : Id) (t : Type_) (p : bool)
  (i : Pointer Expression) : VarDeclaration :=
  mkVarDeclaration Localizable_new n p i t.

Definition VarDeclaration_getId (self : VarDeclaration) : Id :=
  VarDeclaration_name self.
Definition VarDeclaration_isPointer (self : VarDeclaration) : bool :=
  VarDeclaration_point self.
Definition VarDeclaration_getInitializer (self : VarDeclaration)
  : option Expression := maybe_return (VarDeclaration_init self).
Definition VarDeclaration_getType (self : VarDeclaration) : Type_ :=
  VarDeclaration_type self.

Record Assignment : Type := mkAssignment {
  Assignment_base : Localizable;
  Assignment_name : Id;
  Assignment_value : Expression
}.

Definition Assignment_new (n : Id) (v : Expression) : Assignment :=
  mkAssignment Localizable_new n v.
Definition Assignment_getName (self : Assignment) : Id :=
  Assignment_name self.
Definition Assignment_getValue (self : Assignment) : Expression :=
  Assignment_value self.

Record Print : Type := mkPrint {
  Print_base : Localizable;
  Print_expression : Expression
}.

Definition Print_new (e : Expression) : Print := mkPrint Localizable_new e.
Definition Print_getExpression (self : Print) : Expression :=
  Print_expression self.

Record Input : Type := mkInput {
  Input_base : Localizable;
  Input_variable : Id
}.

Definition Input_new (v : Id) : Input := mkInput Localizable_new v.
Definition Input_getVariable (self : Input) : Id := Input_variable self.

Record Abort : Type := mkAbort { Abort_base : Localizable }.

Definition Abort_new : Abort := mkAbort Localizable_new.

Record Assert : Type := mkAssert {
  Assert_base : Localizable;
  Assert_expression : Expression
}.

Definition Assert_new (e : Expression) : Assert := mkAssert Localizable_new e.
Definition Assert_getExpression (self : Assert) : Expression :=
  Assert_expression self.

(** The abstract class [Statement] is the sum of its concrete
    subclasses; [Loop] and [Branch] own statement sequences.
    [FunctionCall] derives from both [Statement] and [Expression]. *)
Inductive Statement : Type :=
| Stmt_Return (s : Return)
| Stmt_Loop (s : Loop)
| Stmt_VarDeclaration (s : VarDeclaration)
| Stmt_Assignment (s : Assignment)
| Stmt_Print (s : Print)
| Stmt_Input (s : Input)
| Stmt_Abort (s : Abort)
| Stmt_Assert (s : Assert)
| Stmt_FunctionCall (s : FunctionCall)
| Stmt_Branch (s : Branch)
with Loop : Type :=
| mkLoop (base : Localizable) (body : PointerList Statement)
    (condition : Expression)
with Branch : Type :=
| mkBranch (base : Localizable) (var : Id) (body : Branch_Body)
with Branch_Body : Type :=
| mkBranch_Body (base : Localizable) (cases : PointerList BranchCase)
    (els : Pointer (PointerList Statement))
with BranchCase : Type :=
| mkBranchCase (base : Localizable) (condition : SemiExpression)
    (body : PointerList Statement).

(** [Loop(PointerList<Statement> *b, Expression *c)] *)
Definition Loop_new (b : PointerList Statement) (c : Expression) : Loop :=
  mkLoop Localizable_new b c.
Definition Loop_getBody (self : Loop) : PointerList Statement :=
  match self with mkLoop _ b _ => b end.
Definition Loop_getCondition (self : Loop) : Expression :=
  match self with mkLoop _ _ c => c end.

(** [BranchCase(SemiExpression *c, PointerList<Statement> *b)] *)
Definition BranchCase_new (c : SemiExpression) (b : PointerList Statement)
  : BranchCase := mkBranchCase Localizable_new c b.
Definition BranchCase_getCondition (self : BranchCase) : SemiExpression :=
  match self with mkBranchCase _ c _ => c end.
Definition BranchCase_getBody (self : BranchCase) : PointerList Statement :=
  match self with mkBranchCase _ _ b => b end.

(** [Body(PointerList<BranchCase> *c, PointerList<Statement> *e = nullptr)] *)
Definition Branch_Body_new (c : PointerList BranchCase)
  (e : Pointer (PointerList Statement)) : Branch_Body :=
  mkBranch_Body Localizable_new c e.
Definition Branch_Body_getCases (self : Branch_Body)
  : PointerList BranchCase :=
  match self with mkBranch_Body _ c _ => c end.
Definition Branch_Body_getElse (self : Branch_Body)
  : option (PointerList Statement) :=
  match self with mkBranch_Body _ _ e => maybe_return e end.

(** [Branch(Id *v, Branch::Body *b)] *)
Definition Branch_new (v : Id) (b : Branch_Body) : Branch :=
  mkBranch Localizable_new v b.
Definition Branch_getVar (self : Branch) : Id :=
  match self with mkBranch _ v _ => v end.
Definition Branch_getBody (self : Branch) : Branch_Body :=
  match self with mkBranch _ _ b => b end.

(* ================================================================== *)
(** ** Structural nodes *)

Record FunArg : Type := mkFunArg {
  FunArg_base : Localizable;
  FunArg_name : Id;
  FunArg_type : Type_;
  FunArg_pointer : bool
}.

(** [FunArg(Id *n, Type t, bool p)] *)
Definition FunArg_new (n : Id) (t : Type_) (p : bool) : FunArg :=
  mkFunArg Localizable_new n t p.
Definition FunArg_getName (self : FunArg) : Id := FunArg_name self.
Definition FunArg_getType (self : FunArg) : Type_ := FunArg_type self.
Definition FunArg_isPointer (self : FunArg) : bool := FunArg_pointer self.

Record FunctionPrototype : Type := mkFunctionPrototype {
  FunctionPrototype_base : Localizable;
  FunctionPrototype_name : Id;
  FunctionPrototype_type : Type_;
  FunctionPrototype_args : PointerList FunArg
}.

(** [FunctionPrototype(Id *n, Type r, PointerList<FunArg> *a)] *)
Definition FunctionPrototype_new (n : Id) (r : Type_)
  (a : PointerList FunArg) : FunctionPrototype :=
  mkFunctionPrototype Localizable_new n r a.
Definition FunctionPrototype_getName (self : FunctionPrototype) : Id :=
  FunctionPrototype_name self.
Definition FunctionPrototype_getType (self : FunctionPrototype) : Type_ :=
  FunctionPrototype_type self.
Definition FunctionPrototype_getArgs (self : FunctionPrototype)
  : PointerList FunArg := FunctionPrototype_args self.

(** [bool operator==(const FunctionPrototype &a, const FunctionPrototype &b)
     { return a.getName() == b.getName(); }] *)
Definition FunctionPrototype_operator_eq (a b : FunctionPrototype) : bool :=
  Id_operator_eq (FunctionPrototype_getName a) (FunctionPrototype_getName b).

(** [size_t hash_value(const monicelli::FunctionPrototype &e)
     { return std::hash<std::string>()(e.getName().getValue()); }] *)
Definition FunctionPrototype_hash_value `{StdHash} (e : FunctionPrototype)
  : N := hash_string (Id_getValue (FunctionPrototype_getName e)).

Record Function : Type := mkFunction {
  Function_base : Localizable;
  Function_prototype : FunctionPrototype;
  Function_body : PointerList Statement
}.

(** [Function(FunctionPrototype *p, PointerList<Statement> *b)] *)
Definition Function_new (p : FunctionPrototype) (b : PointerList Statement)
  : Function := mkFunction Localizable_new p b.
Definition Function_getPrototype (self : Function) : FunctionPrototype :=
  Function_prototype self.
Definition Function_getBody (self : Function) : PointerList Statement :=
  Function_body self.

(** [enum ModuleType { SYSTEM, USER }] *)
Inductive ModuleType : Set := SYSTEM | USER.

Definition ModuleType_eqb (a b : ModuleType) : bool :=
  match a, b with
  | SYSTEM, SYSTEM | USER, USER => true
  | _, _ => false
  end.

(** The conversion of the enumerator to [bool] that the call
    [std::hash<bool>()(e.getType())] performs: [SYSTEM] is 0, [USER] is 1. *)
Definition ModuleType_to_bool (t : ModuleType) : bool :=
  match t with SYSTEM => false | USER => true end.

Record Module : Type := mkModule {
  Module_base : Localizable;
  Module_name : string;
  Module_type : ModuleType
}.

(** [Module(const std::string &n, ModuleType s)] *)
Definition Module_new (n : string) (s : ModuleType) : Module :=
  mkModule Localizable_new n s.
Definition Module_getName (self : Module) : string := Module_name self.
Definition Module_getType (self : Module) : ModuleType := Module_type self.

Definition Module_setLocation (l : location) (self : Module) : Module :=
  mkModule (setLocation l (Module_base self)) (Module_name self)
    (Module_type self).

(** [bool operator==(const Module &a, const Module &b)
     { return (a.getName() == b.getName()) && (a.getType() == b.getType()); }] *)
Definition Module_operator_eq (a b : Module) : bool :=
  String.eqb (Module_getName a) (Module_getName b)
  && ModuleType_eqb (Module_getType a) (Module_getType b).

(** [size_t hash_value(const monicelli::Module &e)
     { return std::hash<std::string>()(e.getName()) ^ std::hash<bool>()(e.getType()); }] *)
Definition Module_hash_value `{StdHash} (e : Module) : N :=
  N.lxor (hash_string (Module_getName e))
         (hash_bool (ModuleType_to_bool (Module_getType e))).

(* ================================================================== *)
(** ** The program *)

Record Program : Type := mkProgram {
  Program_base : Localizable;
  Program_main : Pointer Function;
  Program_functions : PointerList Function;
  Program_modules : PointerSet Module
}.

(** The implicit default constructor: a null [main], no function, no
    module. *)
Definition Program_new : Program :=
  mkProgram Localizable_new nullptr [] [].

(** [void setMain(Function *m) { main = Pointer<Function>(m); }] *)
Definition Program_setMain (m : Pointer Function) (self : Program)
  : Program :=
  mkProgram (Program_base self) m (Program_functions self)
    (Program_modules self).

(** [void addFunction(Function *f) { functions.push_back(f); }], for [f]
    the address of a function: the sequence holds objects, not nulls. *)
Definition Program_addFunction (f : Function) (self : Program) : Program :=
  mkProgram (Program_base self) (Program_main self)
    (push_back (Program_functions self) f) (Program_modules self).

(** [void addModule(Module *m) { modules.insert(m); }], for [m] the
    address of a module, the set being keyed by [hash_value] and
    [operator==] of [Module]. *)
Definition Program_addModule `{StdHash} (m : Module) (self : Program)
  : Program :=
  mkProgram (Program_base self) (Program_main self) (Program_functions self)
    (PointerSet_insert Module_hash_value Module_operator_eq
       (Program_modules self) m).

(** [boost::optional<Function const&> getMain() const { maybe_return(main); }] *)
Definition Program_getMain (self : Program) : option Function :=
  maybe_return (Program_main self).

Definition Program_getFunctions (self : Program) : PointerList Function :=
  Program_functions self.

Definition Program_getModules (self : Program) : PointerSet Module :=
  Program_modules self.

(** The invariant of the module set: no two stored modules compare
    equal. *)
Definition Program_wf (self : Program) : bool :=
  PointerSet_wf Module_operator_eq (Program_modules self).

(** One call of a mutator of [Program]. *)
Inductive Program_call : Type :=
| call_setMain (m : Pointer Function)
| call_addFunction (f : Function)
| call_addModule (m : Module).

Definition Program_apply `{StdHash} (c : Program_call) (self : Program)
  : Program :=
  match c with
  | call_setMain m => Program_setMain m self
  | call_addFunction f => Program_addFunction f self
  | call_addModule m => Program_addModule m self
  end.

(** The program built by a sequence of calls on a fresh [Program]. *)
Definition Program_build `{StdHash} (cs : list Program_call) : Program :=
  fold_left (fun p c => Program_apply c p) cs Program_new.

(* ================================================================== *)
(** ** Emission: the dispatch to a backend *)

(** A member function [bool emit(...)] of a backend: it may change the
    backend's state and returns whether it succeeded. *)
Definition Emit (St : Type) : Type := St -> bool * St.

(** Modelled from the spec: [Emitter.hpp] is not part of the header.  The
    abstract backend capability has one entry point [emit(K const&)] per
    concrete node kind [K]; these are the overloads that the [emit]
    members of the header call, each with [*this] of its own class. *)
Record Emitter (St : Type) : Type := mkEmitter {
  emit_Id : Id -> Emit St;
  emit_Integer : Integer -> Emit St;
  emit_Float : Float -> Emit St;
  emit_FunctionCall : FunctionCall -> Emit St;
  emit_BinaryExpression : BinaryExpression -> Emit St;
  emit_Return : Return -> Emit St;
  emit_Loop : Loop -> Emit St;
  emit_VarDeclaration : VarDeclaration -> Emit St;
  emit_Assignment : Assignment -> Emit St;
  emit_Print : Print -> Emit St;
  emit_Input : Input -> Emit St;
  emit_Abort : Abort -> Emit St;
  emit_Assert : Assert -> Emit St;
  emit_Branch : Branch -> Emit St;
  emit_FunctionPrototype : FunctionPrototype -> Emit St;
  emit_Function : Function -> Emit St;
  emit_Module : Module -> Emit St;
  emit_Program : Program -> Emit St
}.

Section NodeEmit.
Variable St : Type.
Variable emitter : Emitter St.

(** Every concrete class defines
    [virtual bool emit(Emitter *emitter) const { return emitter->emit( *this ); }]. *)
Definition Id_emit (self : Id) : Emit St := emit_Id emitter self.
Definition Integer_emit (self : Integer) : Emit St :=
  emit_Integer emitter self.
Definition Float_emit (self : Float) : Emit St := emit_Float emitter self.
Definition FunctionCall_emit (self : FunctionCall) : Emit St :=
  emit_FunctionCall emitter self.
(** Inherited as it is by [ExpLt], ..., [ExpShr]. *)
Definition BinaryExpression_emit (self : BinaryExpression) : Emit St :=
  emit_BinaryExpression emitter self.
Definition Return_emit (self : Return) : Emit St := emit_Return emitter self.
Definition Loop_emit (self : Loop) : Emit St := emit_Loop emitter self.
Definition VarDeclaration_emit (self : VarDeclaration) : Emit St :=
  emit_VarDeclaration emitter self.
Definition Assignment_emit (self : Assignment) : Emit St :=
  emit_Assignment emitter self.
Definition Print_emit (self : Print) : Emit St := emit_Print emitter self.
Definition Input_emit (self : Input) : Emit St := emit_Input emitter self.
Definition Abort_emit (self : Abort) : Emit St := emit_Abort emitter self.
Definition Assert_emit (self : Assert) : Emit St := emit_Assert emitter self.
Definition Branch_emit (self : Branch) : Emit St := emit_Branch emitter self.
Definition FunctionPrototype_emit (self : FunctionPrototype) : Emit St :=
  emit_FunctionPrototype emitter self.
Definition Function_emit (self : Function) : Emit St :=
  emit_Function emitter self.
Definition Module_emit (self : Module) : Emit St := emit_Module emitter self.
Definition Program_emit (self : Program) : Emit St :=
  emit_Program emitter self.

(** A call of the virtual [emit] through a reference to [Expression]
    runs the member of the object's own class. *)
Definition Expression_emit (self : Expression) : Emit St :=
  match self with
  | Expr_Id e => Id_emit e
  | Expr_Integer e => Integer_emit e
  | Expr_Float e => Float_emit e
  | Expr_FunctionCall e => FunctionCall_emit e
  | Expr_BinaryExpression e => BinaryExpression_emit e
  end.

(** The same through a reference to [Statement]. *)
Definition Statement_emit (self : Statement) : Emit St :=
  match self with
  | Stmt_Return s => Return_emit s
  | Stmt_Loop s => Loop_emit s
  | Stmt_VarDeclaration s => VarDeclaration_emit s
  | Stmt_Assignment s => Assignment_emit s
  | Stmt_Print s => Print_emit s
  | Stmt_Input s => Input_emit s
  | Stmt_Abort s => Abort_emit s
  | Stmt_Assert s => Assert_emit s
  | Stmt_FunctionCall s => FunctionCall_emit s
  | Stmt_Branch s => Branch_emit s
  end.
End NodeEmit.

(* ================================================================== *)
(** ** Emission: the propagation policy of a backend *)

Definition succeed {St : Type} : Emit St := fun st => (true, st).

(** Run [c]; when it fails, stop and report the failure, otherwise go on
    with [k]. *)
Definition guarded {St : Type} (c k : Emit St) : Emit St :=
  fun st => let (ok, st') := c st in if ok then k st' else (false, st').

(** Modelled from the spec: the backends are not part of the header.  A
    sequence is emitted in order and stops at the first failure, which it
    propagates. *)
Definition emitSequence {St A : Type} (f : A -> Emit St)
  : PointerList A -> Emit St :=
  fix go (l : PointerList A) : Emit St :=
    match l with
    | [] => succeed
    | x :: rest => guarded (f x) (go rest)
    end.

Definition emitOptional {St A : Type} (f : A -> Emit St) (x : option A)
  : Emit St :=
  match x with
  | Some a => f a
  | None => succeed
  end.

Section Policy.
Variable St : Type.

(** What the backend does for a node of each kind once the children of
    the node have been emitted. *)
Variable own : Emitter St.

(** Modelled from the spec: the backends are not part of the header.  A
    composite node has its children emitted first, in the order in which
    its constructor takes them, and short-circuits on the first failing
    child; only then does the backend do its own work for the node. *)
Fixpoint policy_Expression (e : Expression) : Emit St :=
  match e with
  | Expr_Id i => emit_Id own i
  | Expr_Integer i => emit_Integer own i
  | Expr_Float f => emit_Float own f
  | Expr_FunctionCall c => policy_FunctionCall c
  | Expr_BinaryExpression b => policy_BinaryExpression b
  end
with policy_FunctionCall (c : FunctionCall) : Emit St :=
  match c with
  | mkFunctionCall _ n a =>
      guarded (emit_Id own n)
        (guarded (emitSequence policy_Expression a)
           (emit_FunctionCall own c))
  end
with policy_BinaryExpression (b : BinaryExpression) : Emit St :=
  match b with
  | mkBinaryExpression _ l _ r =>
      guarded (policy_Expression l)
        (guarded (policy_Expression r)
           (emit_BinaryExpression own b))
  end.

Fixpoint policy_Statement (s : Statement) : Emit St :=
  match s with
  | Stmt_Return r =>
      guarded (emitOptional policy_Expression (Return_getExpression r))
        (emit_Return own r)
  | Stmt_Loop l => policy_Loop l
  | Stmt_VarDeclaration d =>
      guarded (emit_Id own (VarDeclaration_getId d))
        (guarded
           (emitOptional policy_Expression (VarDeclaration_getInitializer d))
           (emit_VarDeclaration own d))
  | Stmt_Assignment a =>
      guarded (emit_Id own (Assignment_getName a))
        (guarded (policy_Expression (Assignment_getValue a))
           (emit_Assignment own a))
  | Stmt_Print p =>
      guarded (policy_Expression (Print_getExpression p)) (emit_Print own p)
  | Stmt_Input i =>
      guarded (emit_Id own (Input_getVariable i)) (emit_Input own i)
  | Stmt_Abort a => emit_Abort own a
  | Stmt_Assert a =>
      guarded (policy_Expression (Assert_getExpression a))
        (emit_Assert own a)
  | Stmt_FunctionCall c => policy_FunctionCall c
  | Stmt_Branch b => policy_Branch b
  end
with policy_Loop (l : Loop) : Emit St :=
  match l with
  | mkLoop _ b c =>
      guarded (emitSequence policy_Statement b)
        (guarded (policy_Expression c) (emit_Loop own l))
  end
with policy_Branch (b : Branch) : Emit St :=
  match b with
  | mkBranch _ v body =>
      guarded (emit_Id own v)
        (guarded (policy_Branch_Body body) (emit_Branch own b))
  end
with policy_Branch_Body (b : Branch_Body) : Emit St :=
  match b with
  | mkBranch_Body _ cs e =>
      guarded (emitSequence policy_BranchCase cs)
        (match e with
         | ptr l => emitSequence policy_Statement l
         | nullptr => succeed
         end)
  end
with policy_BranchCase (c : BranchCase) : Emit St :=
  match c with
  | mkBranchCase _ cond b =>
      guarded (policy_Expression (SemiExpression_getLeft cond))
        (emitSequence policy_Statement b)
  end.

Definition policy_Function (f : Function) : Emit St :=
  guarded (emit_FunctionPrototype own (Function_getPrototype f))
    (guarded (emitSequence policy_Statement (Function_getBody f))
       (emit_Function own f)).

Definition policy_Program (p : Program) : Emit St :=
  guarded (emitSequence (emit_Module own) (Program_getModules p))
    (guarded (emitOptional policy_Function (Program_getMain p))
       (guarded (emitSequence policy_Function (Program_getFunctions p))
          (emit_Program own p))).

(** The backend that follows the policy: its entry point for a kind
    emits a node of that kind together with its children. *)
Definition policy_Emitter : Emitter St :=
  {| emit_Id := emit_Id own;
     emit_Integer := emit_Integer own;
     emit_Float := emit_Float own;
     emit_FunctionCall := policy_FunctionCall;
     emit_BinaryExpression := policy_BinaryExpression;
     emit_Return := fun n => policy_Statement (Stmt_Return n);
     emit_Loop := policy_Loop;
     emit_VarDeclaration := fun n => policy_Statement (Stmt_VarDeclaration n);
     emit_Assignment := fun n => policy_Statement (Stmt_Assignment n);
     emit_Print := fun n => policy_Statement (Stmt_Print n);
     emit_Input := fun n => policy_Statement (Stmt_Input n);
     emit_Abort := emit_Abort own;
     emit_Assert := fun n => policy_Statement (Stmt_Assert n);
     emit_Branch := policy_Branch;
     emit_FunctionPrototype := emit_FunctionPrototype own;
     emit_Function := policy_Function;
     emit_Module := emit_Module own;
     emit_Program := policy_Program |}.

(** The emission of a statement sequence by the policy backend, each
    statement through its virtual [emit]. *)
Definition emitStatements (l : PointerList Statement) : Emit St :=
  emitSequence (Statement_emit policy_Emitter) l.
End Policy.

(* ================================================================== *)
(** ** The class declarations *)

(** Every class that the header declares. *)
Inductive Class : Set :=
| cls_Localizable | cls_Emittable | cls_Statement | cls_Expression
| cls_SimpleExpression | cls_SemiExpression | cls_Id | cls_Number
| cls_Integer | cls_Float
| cls_Return | cls_Loop | cls_VarDeclaration | cls_Assignment | cls_Print
| cls_Input | cls_Abort | cls_Assert | cls_FunctionCall
| cls_BranchCase | cls_Branch_Body | cls_Branch
| cls_FunArg | cls_FunctionPrototype | cls_Function | cls_Module
| cls_Program | cls_BinaryExpression
| cls_ExpLt | cls_ExpGt | cls_ExpLte | cls_ExpGte | cls_ExpPlus
| cls_ExpMinus | cls_ExpTimes | cls_ExpDiv | cls_ExpShl | cls_ExpShr
| cls_SemiExpEq | cls_SemiExpLt | cls_SemiExpGt | cls_SemiExpLte
| cls_SemiExpGte | cls_SemiExpPlus | cls_SemiExpMinus | cls_SemiExpTimes
| cls_SemiExpDiv | cls_SemiExpShl | cls_SemiExpShr.

Definition Class_eqb (a b : Class) : bool :=
  match a, b with
  | cls_Localizable, cls_Localizable | cls_Emittable, cls_Emittable
  | cls_Statement, cls_Statement | cls_Expression, cls_Expression
  | cls_SimpleExpression, cls_SimpleExpression
  | cls_SemiExpression, cls_SemiExpression | cls_Id, cls_Id
  | cls_Number, cls_Number | cls_Integer, cls_Integer
  | cls_Float, cls_Float | cls_Return, cls_Return | cls_Loop, cls_Loop
  | cls_VarDeclaration, cls_VarDeclaration
  | cls_Assignment, cls_Assignment | cls_Print, cls_Print
  | cls_Input, cls_Input | cls_Abort, cls_Abort | cls_Assert, cls_Assert
  | cls_FunctionCall, cls_FunctionCall | cls_BranchCase, cls_BranchCase
  | cls_Branch_Body, cls_Branch_Body | cls_Branch, cls_Branch
  | cls_FunArg, cls_FunArg | cls_FunctionPrototype, cls_FunctionPrototype
  | cls_Function, cls_Function | cls_Module, cls_Module
  | cls_Program, cls_Program | cls_BinaryExpression, cls_BinaryExpression
  | cls_ExpLt, cls_ExpLt | cls_ExpGt, cls_ExpGt | cls_ExpLte, cls_ExpLte
  | cls_ExpGte, cls_ExpGte | cls_ExpPlus, cls_ExpPlus
  | cls_ExpMinus, cls_ExpMinus | cls_ExpTimes, cls_ExpTimes
  | cls_ExpDiv, cls_ExpDiv | cls_ExpShl, cls_ExpShl | cls_ExpShr, cls_ExpShr
  | cls_SemiExpEq, cls_SemiExpEq | cls_SemiExpLt, cls_SemiExpLt
  | cls_SemiExpGt, cls_SemiExpGt | cls_SemiExpLte, cls_SemiExpLte
  | cls_SemiExpGte, cls_SemiExpGte | cls_SemiExpPlus, cls_SemiExpPlus
  | cls_SemiExpMinus, cls_SemiExpMinus | cls_SemiExpTimes, cls_SemiExpTimes
  | cls_SemiExpDiv, cls_SemiExpDiv | cls_SemiExpShl, cls_SemiExpShl
  | cls_SemiExpShr, cls_SemiExpShr => true
  | _, _ => false
  end.

(** The direct base classes, as each class head lists them. *)
Definition bases (c : Class) : list Class :=
  match c with
  | cls_Localizable => []
  | cls_Emittable => [cls_Localizable]
  | cls_Statement | cls_Expression => [cls_Emittable]
  | cls_SimpleExpression => [cls_Expression]
  | cls_SemiExpression => [cls_Localizable]
  | cls_Id | cls_Number => [cls_SimpleExpression]
  | cls_Integer | cls_Float => [cls_Number]
  | cls_Return | cls_Loop | cls_VarDeclaration | cls_Assignment
  | cls_Print | cls_Input | cls_Abort | cls_Assert | cls_Branch =>
      [cls_Statement]
  | cls_FunctionCall => [cls_Statement; cls_Expression]
  | cls_BranchCase | cls_Branch_Body | cls_FunArg => [cls_Localizable]
  | cls_FunctionPrototype | cls_Function | cls_Module | cls_Program =>
      [cls_Emittable]
  | cls_BinaryExpression => [cls_Expression]
  | cls_ExpLt | cls_ExpGt | cls_ExpLte | cls_ExpGte | cls_ExpPlus
  | cls_ExpMinus | cls_ExpTimes | cls_ExpDiv | cls_ExpShl | cls_ExpShr =>
      [cls_BinaryExpression]
  | cls_SemiExpEq | cls_SemiExpLt | cls_SemiExpGt | cls_SemiExpLte
  | cls_SemiExpGte | cls_SemiExpPlus | cls_SemiExpMinus | cls_SemiExpTimes
  | cls_SemiExpDiv | cls_SemiExpShl | cls_SemiExpShr =>
      [cls_SemiExpression]
  end.

(** How a class body declares the member [emit], when it does. *)
Inductive EmitMember : Set :=
| pure_virtual
    (* [virtual bool emit(Emitter *emitter) const = 0;] *)
| calls_backend.
    (* [virtual bool emit(Emitter *emitter) const], which returns the
       result of the backend's [emit] for this object *)

Definition declares_emit (c : Class) : option EmitMember :=
  match c with
  | cls_Emittable => Some pure_virtual
  | cls_Id | cls_Integer | cls_Float
  | cls_Return | cls_Loop | cls_VarDeclaration | cls_Assignment
  | cls_Print | cls_Input | cls_Abort | cls_Assert | cls_FunctionCall
  | cls_Branch
  | cls_FunctionPrototype | cls_Function | cls_Module | cls_Program
  | cls_BinaryExpression => Some calls_backend
  | _ => None
  end.

Definition first_some {A : Type} (l : list (option A)) : option A :=
  fold_right (fun x acc => match x with Some _ => x | None => acc end) None l.

(** Lookup of the member [emit] from class [c]: the declaration of the
    class itself, else what its bases give, at most [fuel] levels up.
    In this hierarchy the only class with two bases declares the member
    itself, so the lookup never has two candidates. *)
Fixpoint lookup_emit_at (fuel : nat) (c : Class)
  : option (Class * EmitMember) :=
  match declares_emit c with
  | Some m => Some (c, m)
  | None =>
      match fuel with
      | O => None
      | S n => first_some (map (lookup_emit_at n) (bases c))
      end
  end.

(** The longest chain of bases, from [Integer] up to [Localizable], has
    five classes above the first. *)
Definition hierarchy_depth : nat := 5.

Definition lookup_emit (c : Class) : option (Class * EmitMember) :=
  lookup_emit_at hierarchy_depth c.

(** The class has a member [emit]. *)
Definition exposes_emit (c : Class) : bool :=
  match lookup_emit c with Some _ => true | None => false end.

(** The backend entry point that [emit] on an object of class [c] runs:
    the overload for the class whose body passes [*this]. *)
Definition backend_entry (c : Class) : option Class :=
  match lookup_emit c with
  | Some (k, calls_backend) => Some k
  | _ => None
  end.

(** [c] is [b] or derives from it, looking at most [fuel] levels up. *)
Fixpoint derives_from_at (fuel : nat) (c b : Class) : bool :=
  Class_eqb c b ||
  match fuel with
  | O => false
  | S n => existsb (fun k => derives_from_at n k b) (bases c)
  end.

Definition derives_from (c b : Class) : bool :=
  derives_from_at hierarchy_depth c b.

Definition all_classes : list Class :=
  [cls_Localizable; cls_Emittable; cls_Statement; cls_Expression;
   cls_SimpleExpression; cls_SemiExpression; cls_Id; cls_Number;
   cls_Integer; cls_Float;
   cls_Return; cls_Loop; cls_VarDeclaration; cls_Assignment; cls_Print;
   cls_Input; cls_Abort; cls_Assert; cls_FunctionCall;
   cls_BranchCase; cls_Branch_Body; cls_Branch;
   cls_FunArg; cls_FunctionPrototype; cls_Function; cls_Module;
   cls_Program; cls_BinaryExpression;
   cls_ExpLt; cls_ExpGt; cls_ExpLte; cls_ExpGte; cls_ExpPlus;
   cls_ExpMinus; cls_ExpTimes; cls_ExpDiv; cls_ExpShl; cls_ExpShr;
   cls_SemiExpEq; cls_SemiExpLt; cls_SemiExpGt; cls_SemiExpLte;
   cls_SemiExpGte; cls_SemiExpPlus; cls_SemiExpMinus; cls_SemiExpTimes;
   cls_SemiExpDiv; cls_SemiExpShl; cls_SemiExpShr].

(** The node kinds of the data model, family by family. *)
Definition simple_kinds : list Class := [cls_Id; cls_Integer; cls_Float].

Definition binary_forms : list Class :=
  [cls_ExpLt; cls_ExpGt; cls_ExpLte; cls_ExpGte; cls_ExpPlus;
   cls_ExpMinus; cls_ExpTimes; cls_ExpDiv; cls_ExpShl; cls_ExpShr].

Definition semi_forms : list Class :=
  [cls_SemiExpEq; cls_SemiExpLt; cls_SemiExpGt; cls_SemiExpLte;
   cls_SemiExpGte; cls_SemiExpPlus; cls_SemiExpMinus; cls_SemiExpTimes;
   cls_SemiExpDiv; cls_SemiExpShl; cls_SemiExpShr].

(** The statement kinds: the classes that derive from [Statement] and
    leave no [emit] pure. *)
Definition statement_kinds : list Class :=
  filter (fun c => derives_from c cls_Statement
                   && match lookup_emit c with
                      | Some (_, pure_virtual) => false
                      | _ => true
                      end)
         all_classes.

Definition structural_kinds : list Class :=
  [cls_FunctionPrototype; cls_Function; cls_Module; cls_Program].

(** The kinds with a backend entry point of their own. *)
Definition own_entry_kinds : list Class :=
  simple_kinds ++ [cls_BinaryExpression] ++ statement_kinds
  ++ structural_kinds.

(** The kinds that the data model enumerates. *)
Definition node_kinds : list Class :=
  simple_kinds ++ binary_forms ++ semi_forms ++ statement_kinds
  ++ structural_kinds.

(* ================================================================== *)
(** ** Sample values *)

(** A stand-in for the library hashes: the length of the text, and 0 or
    1 for a [bool]. *)
Definition sample_hash : StdHash :=
  {| hash_string := fun s => N.of_nat (String.length s);
     hash_bool := fun b => if b then 1 else 0 |}.

Definition at_line (n : N) : location :=
  mkLocation (mkPosition None n 1) (mkPosition None n 80).

Definition sample_Id (text : string) (n : N) : Id :=
  Id_setLocation (at_line n) (Id_new text).

Definition sample_Integer (i : Z) (n : N) : Integer :=
  mkInteger (setLocation (at_line n) Localizable_new) i.

Definition sample_Module (text : string) (t : ModuleType) (n : N) : Module :=
  Module_setLocation (at_line n) (Module_new text t).

(** Two prototypes named alike, with different return types and
    arguments. *)
Definition sample_prototype_void : FunctionPrototype :=
  FunctionPrototype_new (sample_Id "antani" 3) VOID [].

Definition sample_prototype_int : FunctionPrototype :=
  FunctionPrototype_new (sample_Id "antani" 9) INT
    [FunArg_new (sample_Id "x" 9) FLOAT true].

Definition sample_Print (i : Z) (n : N) : Statement :=
  Stmt_Print (mkPrint (setLocation (at_line n) Localizable_new)
                      (Expr_Integer (sample_Integer i n))).

Definition sample_Abort (n : N) : Statement :=
  Stmt_Abort (mkAbort (setLocation (at_line n) Localizable_new)).

(** A backend that records, for every call of one of its entry points,
    the kind and the location of the node, and fails on the kinds that
    [fails] selects. *)
Definition log_entry (fails : Class -> bool) (c : Class) (b : Localizable)
  : Emit (list (Class * location)) :=
  fun st => (negb (fails c), st ++ [(c, getLocation b)]).

Definition FunctionCall_base (self : FunctionCall) : Localizable :=
  match self with mkFunctionCall b _ _ => b end.
Definition BinaryExpression_base (self : BinaryExpression) : Localizable :=
  match self with mkBinaryExpression b _ _ _ => b end.
Definition Loop_base (self : Loop) : Localizable :=
  match self with mkLoop b _ _ => b end.
Definition Branch_base (self : Branch) : Localizable :=
  match self with mkBranch b _ _ => b end.

Definition log_Emitter (fails : Class -> bool)
  : Emitter (list (Class * location)) :=
  {| emit_Id := fun n => log_entry fails cls_Id (Id_base n);
     emit_Integer := fun n => log_entry fails cls_Integer (Integer_base n);
     emit_Float := fun n => log_entry fails cls_Float (Float_base n);
     emit_FunctionCall :=
       fun n => log_entry fails cls_FunctionCall (FunctionCall_base n);
     emit_BinaryExpression :=
       fun n => log_entry fails cls_BinaryExpression (BinaryExpression_base n);
     emit_Return := fun n => log_entry fails cls_Return (Return_base n);
     emit_Loop := fun n => log_entry fails cls_Loop (Loop_base n);
     emit_VarDeclaration :=
       fun n => log_entry fails cls_VarDeclaration (VarDeclaration_base n);
     emit_Assignment :=
       fun n => log_entry fails cls_Assignment (Assignment_base n);
     emit_Print := fun n => log_entry fails cls_Print (Print_base n);
     emit_Input := fun n => log_entry fails cls_Input (Input_base n);
     emit_Abort := fun n => log_entry fails cls_Abort (Abort_base n);
     emit_Assert := fun n => log_entry fails cls_Assert (Assert_base n);
     emit_Branch := fun n => log_entry fails cls_Branch (Branch_base n);
     emit_FunctionPrototype :=
       fun n => log_entry fails cls_FunctionPrototype
                  (FunctionPrototype_base n);
     emit_Function := fun n => log_entry fails cls_Function (Function_base n);
     emit_Module := fun n => log_entry fails cls_Module (Module_base n);
     emit_Program := fun n => log_entry fails cls_Program (Program_base n) |}.

(** The selection of the single kind [k]. *)
Definition fails_on (k : Class) (c : Class) : bool := Class_eqb c k.

(* ================================================================== *)
(** ** Reading a sequence of calls *)

(** The functions that the calls of [addFunction] pass, in call order. *)
Definition added_functions (cs : list Program_call) : list Function :=
  flat_map (fun c => match c with
                     | call_addFunction f => [f]
                     | _ => []
                     end) cs.

Definition is_setMain (c : Program_call) : bool :=
  match c with call_setMain _ => true | _ => false end.

(** The call is an [addModule] of a module that compares equal to [m]. *)
Definition adds_module_like (m : Module) (c : Program_call) : bool :=
  match c with
  | call_addModule m' => Module_operator_eq m' m
  | _ => false
  end.

(** The calls applied to a program that exists already. *)
Definition Program_run `{StdHash} (cs : list Program_call) (p : Program)
  : Program :=
  fold_left (fun q c => Program_apply c q) cs p.

(* ================================================================== *)
(** ** The class of a node *)

(** The class whose member [emit] runs on the node, and the
    [Localizable] part of the node, for a node held through a reference
    to [Expression] or to [Statement]. *)
Definition Expression_class (e : Expression) : Class :=
  match e with
  | Expr_Id _ => cls_Id
  | Expr_Integer _ => cls_Integer
  | Expr_Float _ => cls_Float
  | Expr_FunctionCall _ => cls_FunctionCall
  | Expr_BinaryExpression _ => cls_BinaryExpression
  end.

Definition Expression_base (e : Expression) : Localizable :=
  match e with
  | Expr_Id n => Id_base n
  | Expr_Integer n => Integer_base n
  | Expr_Float n => Float_base n
  | Expr_FunctionCall n => FunctionCall_base n
  | Expr_BinaryExpression n => BinaryExpression_base n
  end.

Definition Statement_class (s : Statement) : Class :=
  match s with
  | Stmt_Return _ => cls_Return
  | Stmt_Loop _ => cls_Loop
  | Stmt_VarDeclaration _ => cls_VarDeclaration
  | Stmt_Assignment _ => cls_Assignment
  | Stmt_Print _ => cls_Print
  | Stmt_Input _ => cls_Input
  | Stmt_Abort _ => cls_Abort
  | Stmt_Assert _ => cls_Assert
  | Stmt_FunctionCall _ => cls_FunctionCall
  | Stmt_Branch _ => cls_Branch
  end.

Definition Statement_base (s : Statement) : Localizable :=
  match s with
  | Stmt_Return n => Return_base n
  | Stmt_Loop n => Loop_base n
  | Stmt_VarDeclaration n => VarDeclaration_base n
  | Stmt_Assignment n => Assignment_base n
  | Stmt_Print n => Print_base n
  | Stmt_Input n => Input_base n
  | Stmt_Abort n => Abort_base n
  | Stmt_Assert n => Assert_base n
  | Stmt_FunctionCall n => FunctionCall_base n
  | Stmt_Branch n => Branch_base n
  end.

(** The member [emit] that the class has is still pure. *)
Definition is_abstract (c : Class) : bool :=
  match lookup_emit c with
  | Some (_, pure_virtual) => true
  | _ => false
  end.

(* ================================================================== *)
(** * Properties *)

Unset Implicit Arguments.

(** ** Locations *)

Lemma getLocation_setLocation (l : location) (x : Localizable) :
  getLocation (setLocation l x) = l.
Proof. reflexivity. Qed.

Lemma at_line_inj (n m : N) : at_line n = at_line m -> n = m.
Proof. unfold at_line. intros H. injection H. auto. Qed.

(** C6, as the spec words it, fails: after [setLocation] with the
    location of line 1 and then with the location of line 2, the
    location read is not the one set first. *)
Lemma setLocation_twice_not_first :
  getLocation (setLocation (at_line 2) (setLocation (at_line 1) Localizable_new))
  <> at_line 1.
Proof.
  rewrite getLocation_setLocation. intros H.
  apply at_line_inj in H. discriminate H.
Qed.

(** C6, amended: the location read after [setLocation] is the value
    supplied, and [setLocation] has no guard: a second call assigns
    again, so the location read afterwards is the one set last, whatever
    was set before. *)
Theorem setLocation_last_wins (x : Localizable) (l1 l2 : location) :
  getLocation (setLocation l1 x) = l1
  /\ getLocation (setLocation l2 (setLocation l1 x)) = l2
  /\ setLocation l2 (setLocation l1 x) = setLocation l2 x.
Proof. repeat split. Qed.

(** The nodes inherit the two members: on an identifier they act on
    the [Localizable] part and leave the text. *)
Lemma Id_getLocation_setLocation (l : location) (a : Id) :
  Id_getLocation (Id_setLocation l a) = l
  /\ Id_getValue (Id_setLocation l a) = Id_getValue a.
Proof. split; reflexivity. Qed.

(** ** Identifiers *)

Lemma Id_operator_eq_iff (a b : Id) :
  Id_operator_eq a b = true <-> Id_getValue a = Id_getValue b.
Proof. unfold Id_operator_eq. apply String.eqb_eq. Qed.

Lemma Id_getValue_setLocation (l : location) (a : Id) :
  Id_getValue (Id_setLocation l a) = Id_getValue a.
Proof. reflexivity. Qed.

Section IdKey.
Context {H : StdHash}.

(** C4: two identifiers with equal text compare equal and hash alike,
    wherever they are located: [operator==] holds exactly when the texts
    are equal, the hash is the hash of the text, and giving the two nodes
    any two locations changes neither. *)
Theorem Id_equal_text (a b : Id) :
  (Id_operator_eq a b = true <-> Id_getValue a = Id_getValue b)
  /\ (Id_getValue a = Id_getValue b ->
      forall la lb : location,
        Id_operator_eq (Id_setLocation la a) (Id_setLocation lb b) = true
        /\ Id_hash_value (Id_setLocation la a)
           = Id_hash_value (Id_setLocation lb b)).
Proof.
  split.
  - apply Id_operator_eq_iff.
  - intros E la lb. split.
    + apply Id_operator_eq_iff. rewrite !Id_getValue_setLocation. exact E.
    + unfold Id_hash_value. rewrite !Id_getValue_setLocation.
      now rewrite E.
Qed.
End IdKey.

Lemma Id_equal_text_witness :
  Id_getLocation (sample_Id "x" 1) <> Id_getLocation (sample_Id "x" 7)
  /\ Id_operator_eq (sample_Id "x" 1) (sample_Id "x" 7) = true
  /\ @Id_hash_value sample_hash (sample_Id "x" 1)
     = @Id_hash_value sample_hash (sample_Id "x" 7).
Proof.
  split.
  - intros E. apply at_line_inj in E. discriminate E.
  - destruct (@Id_equal_text sample_hash (Id_new "x") (Id_new "x"))
      as [_ K].
    exact (K eq_refl (at_line 1) (at_line 7)).
Defined.

(** ** Function prototypes *)

Section FunctionPrototypeKey.
Context {H : StdHash}.

(** C1: two prototypes compare equal exactly when their names have equal
    text, whatever their return types and arguments; the hash of a
    prototype is the hash of the text of its name, so prototypes named
    alike hash alike. *)
Theorem FunctionPrototype_name_key (a b : FunctionPrototype) :
  (FunctionPrototype_operator_eq a b = true
   <-> Id_getValue (FunctionPrototype_getName a)
       = Id_getValue (FunctionPrototype_getName b))
  /\ FunctionPrototype_hash_value a
     = hash_string (Id_getValue (FunctionPrototype_getName a))
  /\ (Id_getValue (FunctionPrototype_getName a)
      = Id_getValue (FunctionPrototype_getName b) ->
      FunctionPrototype_hash_value a = FunctionPrototype_hash_value b).
Proof.
  split; [| split].
  - unfold FunctionPrototype_operator_eq. apply Id_operator_eq_iff.
  - reflexivity.
  - intros E. unfold FunctionPrototype_hash_value. now rewrite E.
Qed.
End FunctionPrototypeKey.

Lemma FunctionPrototype_name_key_witness :
  FunctionPrototype_getType sample_prototype_void
  <> FunctionPrototype_getType sample_prototype_int
  /\ FunctionPrototype_getArgs sample_prototype_void
     <> FunctionPrototype_getArgs sample_prototype_int
  /\ FunctionPrototype_operator_eq sample_prototype_void sample_prototype_int
     = true
  /\ @FunctionPrototype_hash_value sample_hash sample_prototype_void
     = @FunctionPrototype_hash_value sample_hash sample_prototype_int.
Proof.
  split; [discriminate |]. split; [discriminate |].
  destruct (@FunctionPrototype_name_key sample_hash
              sample_prototype_void sample_prototype_int) as [K1 [_ K3]].
  split.
  - apply K1. reflexivity.
  - apply K3. reflexivity.
Defined.

(** ** Shift operators *)

(** C2: the partial shift forms carry the operators transposed with
    respect to the full forms: [SemiExpShl] has [SHR] and [SemiExpShr]
    has [SHL], whereas [ExpShl] has [SHL] and [ExpShr] has [SHR]. *)
Theorem shift_operators_transposed (l r : Expression) :
  SemiExpression_getOperator (SemiExpShl l) = SHR
  /\ SemiExpression_getOperator (SemiExpShr l) = SHL
  /\ BinaryExpression_getOperator (ExpShl l r) = SHL
  /\ BinaryExpression_getOperator (ExpShr l r) = SHR.
Proof. repeat split. Qed.

(** The other nine partial forms carry the operator of their name. *)
Lemma semi_operators_by_name (l : Expression) :
  map (fun mk : Expression -> SemiExpression =>
         SemiExpression_getOperator (mk l))
      [SemiExpEq; SemiExpLt; SemiExpGt; SemiExpLte; SemiExpGte;
       SemiExpPlus; SemiExpMinus; SemiExpTimes; SemiExpDiv]
  = [EQ; LT; GT; LTE; GTE; PLUS; MINUS; TIMES; DIV].
Proof. reflexivity. Qed.

(** ** Modules *)

Lemma ModuleType_eqb_eq (a b : ModuleType) :
  ModuleType_eqb a b = true <-> a = b.
Proof. destruct a, b; simpl; split; congruence. Qed.

Lemma Module_operator_eq_iff (a b : Module) :
  Module_operator_eq a b = true
  <-> Module_getName a = Module_getName b
      /\ Module_getType a = Module_getType b.
Proof.
  unfold Module_operator_eq.
  rewrite andb_true_iff, String.eqb_eq, ModuleType_eqb_eq. tauto.
Qed.

Lemma Module_operator_eq_refl (a : Module) : Module_operator_eq a a = true.
Proof. apply Module_operator_eq_iff. split; reflexivity. Qed.

Lemma Module_operator_eq_sym (a b : Module) :
  Module_operator_eq a b = Module_operator_eq b a.
Proof.
  destruct (Module_operator_eq b a) eqn:E.
  - apply Module_operator_eq_iff. apply Module_operator_eq_iff in E.
    destruct E; split; congruence.
  - destruct (Module_operator_eq a b) eqn:E'; [| reflexivity].
    apply Module_operator_eq_iff in E'.
    assert (Module_operator_eq b a = true) as K
      by (apply Module_operator_eq_iff; destruct E'; split; congruence).
    congruence.
Qed.

Lemma Module_operator_eq_trans (a b c : Module) :
  Module_operator_eq a b = true -> Module_operator_eq b c = true ->
  Module_operator_eq a c = true.
Proof.
  rewrite !Module_operator_eq_iff. intros [? ?] [? ?]. split; congruence.
Qed.

Section ModuleKey.
Context {H : StdHash}.

Lemma Module_hash_value_eq (a b : Module) :
  Module_operator_eq a b = true -> Module_hash_value a = Module_hash_value b.
Proof.
  intros E. apply Module_operator_eq_iff in E. destruct E as [En Et].
  unfold Module_hash_value. now rewrite En, Et.
Qed.

(** C3: two modules compare equal exactly when both the name and the
    kind are equal; modules with equal name and kind hash alike; modules
    with equal name and different kind compare unequal. *)
Theorem Module_name_kind_key (a b : Module) :
  (Module_operator_eq a b = true
   <-> Module_getName a = Module_getName b
       /\ Module_getType a = Module_getType b)
  /\ (Module_getName a = Module_getName b ->
      Module_getType a = Module_getType b ->
      Module_hash_value a = Module_hash_value b)
  /\ (Module_getName a = Module_getName b ->
      Module_getType a <> Module_getType b ->
      Module_operator_eq a b = false).
Proof.
  split; [| split].
  - apply Module_operator_eq_iff.
  - intros En Et. apply Module_hash_value_eq.
    apply Module_operator_eq_iff. now split.
  - intros _ Ht. destruct (Module_operator_eq a b) eqn:E; [| reflexivity].
    apply Module_operator_eq_iff in E. destruct E as [_ Et]. contradiction.
Qed.
End ModuleKey.

Lemma Module_name_kind_key_witness :
  (Module_operator_eq (sample_Module "io" SYSTEM 1)
     (sample_Module "io" SYSTEM 5) = true
   /\ @Module_hash_value sample_hash (sample_Module "io" SYSTEM 1)
      = @Module_hash_value sample_hash (sample_Module "io" SYSTEM 5))
  /\ Module_operator_eq (sample_Module "io" SYSTEM 1)
       (sample_Module "io" USER 1) = false.
Proof.
  split.
  - destruct (@Module_name_kind_key sample_hash
                (sample_Module "io" SYSTEM 1) (sample_Module "io" SYSTEM 5))
      as [K1 [K2 _]].
    split.
    + apply K1. split; reflexivity.
    + apply K2; reflexivity.
  - destruct (@Module_name_kind_key sample_hash
                (sample_Module "io" SYSTEM 1) (sample_Module "io" USER 1))
      as [_ [_ K3]].
    apply K3; [reflexivity | discriminate].
Defined.

(** ** Optional children *)

Lemma maybe_return_None (T : Type) (p : Pointer T) :
  maybe_return p = None <-> p = nullptr.
Proof. destruct p; simpl; split; congruence. Qed.

Lemma maybe_return_Some (T : Type) (p : Pointer T) (x : T) :
  maybe_return p = Some x <-> p = ptr x.
Proof. destruct p; simpl; split; congruence. Qed.

(** C9: for every [Return] node, whatever its location, the expression
    read is absent exactly when the node was constructed with a null
    expression, and is the constructed expression otherwise; setting the
    location of the node changes nothing of this, and a return of any
    expression whatever is never read as a return of nothing. *)
Theorem Return_getExpression_absent_or_present
  (base : Localizable) (l : location) (p : Pointer Expression)
  (e : Expression) :
  (Return_getExpression (mkReturn base p) = None <-> p = nullptr)
  /\ (Return_getExpression (mkReturn base p) = Some e <-> p = ptr e)
  /\ Return_getExpression (Return_setLocation l (mkReturn base p))
     = Return_getExpression (mkReturn base p)
  /\ Return_getExpression (Return_setLocation l (Return_new p))
     = Return_getExpression (mkReturn base p)
  /\ (forall base' : Localizable,
        Return_getExpression (mkReturn base (ptr e))
        <> Return_getExpression (mkReturn base' nullptr)).
Proof.
  unfold Return_getExpression, Return_setLocation, Return_new; simpl.
  split; [apply maybe_return_None |].
  split; [apply maybe_return_Some |].
  split; [reflexivity |]. split; [reflexivity |].
  intros base'. discriminate.
Qed.

(** The same holds for the initializer of a declaration and for the
    [else] part of a branch. *)
Lemma VarDeclaration_getInitializer_absent (n : Id) (t : Type_) (b : bool)
  (p : Pointer Expression) :
  VarDeclaration_getInitializer (VarDeclaration_new n t b p) = None
  <-> p = nullptr.
Proof. apply maybe_return_None. Qed.

Lemma Branch_Body_getElse_absent (c : PointerList BranchCase)
  (p : Pointer (PointerList Statement)) :
  Branch_Body_getElse (Branch_Body_new c p) = None <-> p = nullptr.
Proof. apply maybe_return_None. Qed.

(** ** The deduplicated set *)

Section PointerSetFacts.
Variable T : Type.
Variable hash : T -> N.
Variable equal : T -> T -> bool.
Hypothesis equal_refl : forall x, equal x x = true.
Hypothesis equal_sym : forall x y, equal x y = equal y x.
Hypothesis equal_trans :
  forall x y z, equal x y = true -> equal y z = true -> equal x z = true.
Hypothesis hash_equal : forall x y, equal x y = true -> hash x = hash y.

Let present (s : PointerSet T) (x : T) : bool :=
  existsb (fun y => equal y x) s.

Lemma same_key_equal (x y : T) : same_key hash equal x y = equal y x.
Proof.
  unfold same_key. destruct (equal y x) eqn:E.
  - rewrite (hash_equal _ _ E). now rewrite N.eqb_refl.
  - apply andb_false_r.
Qed.

Lemma PointerSet_contains_present (s : PointerSet T) (x : T) :
  PointerSet_contains hash equal s x = present s x.
Proof.
  unfold PointerSet_contains, present.
  induction s as [| y s IH]; simpl; [reflexivity |].
  now rewrite same_key_equal, IH.
Qed.

Lemma PointerSet_insert_present (s : PointerSet T) (x : T) :
  present s x = true -> PointerSet_insert hash equal s x = s.
Proof.
  intros P. unfold PointerSet_insert.
  now rewrite PointerSet_contains_present, P.
Qed.

Lemma PointerSet_insert_absent (s : PointerSet T) (x : T) :
  present s x = false -> PointerSet_insert hash equal s x = s ++ [x].
Proof.
  intros P. unfold PointerSet_insert.
  now rewrite PointerSet_contains_present, P.
Qed.

Lemma present_congr (s : PointerSet T) (x y : T) :
  equal x y = true -> present s x = present s y.
Proof.
  intros E. unfold present. induction s as [| z s IH]; simpl; [reflexivity |].
  rewrite IH. f_equal.
  destruct (equal z x) eqn:Ex, (equal z y) eqn:Ey; try reflexivity.
  - rewrite (equal_trans _ _ _ Ex E) in Ey. discriminate.
  - rewrite equal_sym in E. rewrite (equal_trans _ _ _ Ey E) in Ex.
    discriminate.
Qed.

Lemma PointerSet_count_absent (s : PointerSet T) (x : T) :
  present s x = false -> PointerSet_count equal s x = 0%nat.
Proof.
  unfold present, PointerSet_count.
  induction s as [| y s IH]; simpl; [reflexivity |].
  intros P. apply orb_false_iff in P. destruct P as [P1 P2].
  rewrite P1. now apply IH.
Qed.

Lemma PointerSet_count_app (s t : PointerSet T) (x : T) :
  PointerSet_count equal (s ++ t) x
  = (PointerSet_count equal s x + PointerSet_count equal t x)%nat.
Proof.
  unfold PointerSet_count. now rewrite filter_app, length_app.
Qed.

Lemma PointerSet_count_present (s : PointerSet T) (x : T) :
  PointerSet_wf equal s = true -> present s x = true ->
  PointerSet_count equal s x = 1%nat.
Proof.
  unfold present.
  induction s as [| y s IH]; simpl; [discriminate |].
  intros W P. apply andb_true_iff in W. destruct W as [Wy Ws].
  apply negb_true_iff in Wy.
  unfold PointerSet_count. simpl. destruct (equal y x) eqn:E.
  - simpl. f_equal.
    apply PointerSet_count_absent.
    rewrite equal_sym in E.
    rewrite (present_congr s x y E). exact Wy.
  - simpl in P. now apply IH.
Qed.

Lemma PointerSet_wf_app_one (s : PointerSet T) (x : T) :
  PointerSet_wf equal s = true -> present s x = false ->
  PointerSet_wf equal (s ++ [x]) = true.
Proof.
  unfold present.
  induction s as [| y s IH]; simpl; [reflexivity |].
  intros W P. apply andb_true_iff in W. destruct W as [Wy Ws].
  apply orb_false_iff in P. destruct P as [P1 P2].
  apply andb_true_iff. split; [| now apply IH].
  apply negb_true_iff. rewrite existsb_app. simpl.
  apply negb_true_iff in Wy. rewrite Wy. simpl.
  rewrite equal_sym, P1. reflexivity.
Qed.

Lemma PointerSet_wf_insert (s : PointerSet T) (x : T) :
  PointerSet_wf equal s = true ->
  PointerSet_wf equal (PointerSet_insert hash equal s x) = true.
Proof.
  intros W. destruct (present s x) eqn:P.
  - now rewrite PointerSet_insert_present.
  - rewrite PointerSet_insert_absent by assumption.
    now apply PointerSet_wf_app_one.
Qed.

Lemma present_insert (s : PointerSet T) (x : T) :
  present (PointerSet_insert hash equal s x) x = true.
Proof.
  destruct (present s x) eqn:P.
  - now rewrite PointerSet_insert_present.
  - rewrite PointerSet_insert_absent by assumption.
    unfold present. rewrite existsb_app. simpl.
    rewrite equal_refl. apply orb_true_iff. right. reflexivity.
Qed.

Lemma PointerSet_insert_twice (s : PointerSet T) (x y : T) :
  PointerSet_wf equal s = true -> equal x y = true ->
  let s2 := PointerSet_insert hash equal (PointerSet_insert hash equal s x) y in
  PointerSet_count equal s2 x = 1%nat
  /\ s2 = PointerSet_insert hash equal s x.
Proof.
  intros W E s2.
  assert (s2 = PointerSet_insert hash equal s x) as K.
  { unfold s2. apply PointerSet_insert_present.
    rewrite <- (present_congr _ x y E). apply present_insert. }
  split; [| exact K].
  rewrite K. apply PointerSet_count_present.
  - now apply PointerSet_wf_insert.
  - apply present_insert.
Qed.
End PointerSetFacts.

(** ** The program *)

Section ProgramFacts.
Context {H : StdHash}.

Lemma Program_new_wf : Program_wf Program_new = true.
Proof. reflexivity. Qed.

Lemma Program_addModule_wf (m : Module) (p : Program) :
  Program_wf p = true -> Program_wf (Program_addModule m p) = true.
Proof.
  unfold Program_wf, Program_addModule; simpl. intros W.
  apply PointerSet_wf_insert; auto.
  - apply Module_operator_eq_sym.
  - apply Module_hash_value_eq.
Qed.

Lemma Program_apply_wf (c : Program_call) (p : Program) :
  Program_wf p = true -> Program_wf (Program_apply c p) = true.
Proof.
  destruct c; simpl; auto. apply Program_addModule_wf.
Qed.

(** Every program built through the mutators keeps the invariant of the
    module set. *)
Lemma Program_build_wf (cs : list Program_call) :
  Program_wf (Program_build cs) = true.
Proof.
  unfold Program_build. generalize Program_new_wf.
  generalize Program_new. induction cs as [| c cs IH]; simpl; intros p W.
  - exact W.
  - apply IH. now apply Program_apply_wf.
Qed.

(** C5: on a program whose module set has no duplicates, as every
    program built through the mutators has, adding two modules with the
    same name and kind leaves exactly one module with that name and kind
    in the set, the second [addModule] changing nothing; and adding a
    module when one with its name and kind is present leaves the set as
    it was. *)
Theorem Program_addModule_once (p : Program) (m1 m2 : Module) :
  Program_wf p = true ->
  Module_operator_eq m1 m2 = true ->
  PointerSet_count Module_operator_eq
    (Program_getModules (Program_addModule m2 (Program_addModule m1 p))) m1
  = 1%nat
  /\ Program_getModules (Program_addModule m2 (Program_addModule m1 p))
     = Program_getModules (Program_addModule m1 p)
  /\ (forall m : Module,
        existsb (fun y => Module_operator_eq y m) (Program_getModules p)
        = true ->
        Program_getModules (Program_addModule m p) = Program_getModules p).
Proof.
  intros W E.
  pose proof (PointerSet_insert_twice Module Module_hash_value
                Module_operator_eq Module_operator_eq_refl
                Module_operator_eq_sym Module_operator_eq_trans
                Module_hash_value_eq (Program_modules p) m1 m2 W E) as K.
  simpl in K. destruct K as [K1 K2].
  split; [exact K1 |]. split; [exact K2 |].
  intros m P. unfold Program_getModules, Program_addModule; simpl.
  apply PointerSet_insert_present; [apply Module_hash_value_eq | exact P].
Qed.

(** C10: each mutator of [Program] touches its own member only.
    [setMain] replaces the main slot, a later call overriding an earlier
    one, and leaves the functions and the modules; [addFunction] appends
    at the end of the functions and leaves main and the modules;
    [addModule] leaves main and the functions. *)
Theorem Program_mutators_frame (p : Program) (m1 m2 : Pointer Function)
  (f : Function) (md : Module) :
  (Program_getMain (Program_setMain m1 p) = maybe_return m1
   /\ Program_getMain (Program_setMain m2 (Program_setMain m1 p))
      = maybe_return m2
   /\ Program_getFunctions (Program_setMain m1 p) = Program_getFunctions p
   /\ Program_getModules (Program_setMain m1 p) = Program_getModules p)
  /\ (Program_getFunctions (Program_addFunction f p)
      = Program_getFunctions p ++ [f]
      /\ Program_getMain (Program_addFunction f p) = Program_getMain p
      /\ Program_getModules (Program_addFunction f p) = Program_getModules p)
  /\ (Program_getMain (Program_addModule md p) = Program_getMain p
      /\ Program_getFunctions (Program_addModule md p)
         = Program_getFunctions p).
Proof. repeat split. Qed.

(** A later [setMain] makes the earlier one unobservable. *)
Lemma Program_setMain_override (p : Program) (m1 m2 : Pointer Function) :
  Program_setMain m2 (Program_setMain m1 p) = Program_setMain m2 p.
Proof. reflexivity. Qed.
End ProgramFacts.

Lemma Program_addModule_once_witness :
  let p := @Program_build sample_hash
             [call_addModule (sample_Module "math" SYSTEM 1);
              call_addModule (sample_Module "io" USER 2)] in
  let m1 := sample_Module "io" SYSTEM 3 in
  let m2 := sample_Module "io" SYSTEM 8 in
  m1 <> m2
  /\ PointerSet_count Module_operator_eq
       (Program_getModules
          (@Program_addModule sample_hash m2
             (@Program_addModule sample_hash m1 p))) m1 = 1%nat
  /\ List.length
       (Program_getModules
          (@Program_addModule sample_hash m2
             (@Program_addModule sample_hash m1 p))) = 3%nat.
Proof.
  intros p m1 m2. split; [discriminate |]. split.
  - apply (@Program_addModule_once sample_hash p m1 m2); reflexivity.
  - reflexivity.
Defined.

(** ** The classes and their [emit] *)

(** More fuel does not change the lookup: the bound is enough. *)
Lemma lookup_emit_at_stable (c : Class) (n : nat) :
  lookup_emit_at (hierarchy_depth + n) c = lookup_emit c.
Proof. destruct c; reflexivity. Qed.

(** More fuel never loses a base class. *)
Lemma derives_from_at_mono (n : nat) :
  forall c b : Class,
    derives_from_at n c b = true -> derives_from_at (S n) c b = true.
Proof.
  induction n as [| n IH]; intros c b E.
  - simpl in E. rewrite orb_false_r in E.
    change (Class_eqb c b
            || existsb (fun k => derives_from_at 0 k b) (bases c) = true).
    now rewrite E.
  - change (Class_eqb c b
            || existsb (fun k => derives_from_at (S n) k b) (bases c) = true).
    change (Class_eqb c b
            || existsb (fun k => derives_from_at n k b) (bases c) = true) in E.
    apply orb_true_iff in E. apply orb_true_iff.
    destruct E as [E | E]; [now left | right].
    apply existsb_exists in E. destruct E as [k [I D]].
    apply existsb_exists. exists k. split; [exact I | now apply IH].
Qed.

Lemma all_classes_complete (c : Class) : In c all_classes.
Proof. destruct c; simpl; tauto. Qed.

(** A class has a member [emit] exactly when it derives from
    [Emittable]. *)
Lemma exposes_emit_iff_Emittable (c : Class) :
  exposes_emit c = derives_from c cls_Emittable.
Proof. destruct c; reflexivity. Qed.

Lemma statement_kinds_eq :
  statement_kinds
  = [cls_Return; cls_Loop; cls_VarDeclaration; cls_Assignment; cls_Print;
     cls_Input; cls_Abort; cls_Assert; cls_FunctionCall; cls_Branch].
Proof. reflexivity. Qed.

(** The members of the typed embedding run the entry point of the node's
    own class, whatever the backend. *)
Lemma Expression_emit_dispatch (St : Type) (em : Emitter St) :
  (forall e, Expression_emit em (Expr_Id e) = emit_Id em e)
  /\ (forall e, Expression_emit em (Expr_Integer e) = emit_Integer em e)
  /\ (forall e, Expression_emit em (Expr_Float e) = emit_Float em e)
  /\ (forall e,
        Expression_emit em (Expr_FunctionCall e) = emit_FunctionCall em e)
  /\ (forall e,
        Expression_emit em (Expr_BinaryExpression e)
        = emit_BinaryExpression em e).
Proof. repeat split. Qed.

(** C7, as the spec words it, fails on the partial forms: [SemiExpShl]
    is one of the node kinds of the data model, and it has no member
    [emit] and no backend entry point is run for it. *)
Lemma SemiExpShl_has_no_emit :
  In cls_SemiExpShl node_kinds
  /\ ~ Forall (fun c => exposes_emit c = true) node_kinds.
Proof.
  assert (In cls_SemiExpShl node_kinds) as I by (vm_compute; tauto).
  split; [exact I |].
  intros A. rewrite Forall_forall in A. specialize (A _ I).
  vm_compute in A. discriminate A.
Qed.

(** C7, amended: identifiers, integers, floats, the generic binary
    expression, every statement kind, prototypes, functions, modules and
    programs each define [emit], which runs the backend entry point of
    that very kind; the ten binary forms inherit the [emit] of the
    generic binary expression and share its entry point; the partial
    expression and its eleven forms derive from [Localizable] only, not
    from [Emittable], and have no [emit]. *)
Theorem emit_per_node_kind :
  Forall (fun c => lookup_emit c = Some (c, calls_backend)
                   /\ backend_entry c = Some c) own_entry_kinds
  /\ Forall (fun c => exposes_emit c = true
                      /\ backend_entry c = Some cls_BinaryExpression)
            binary_forms
  /\ Forall (fun c => exposes_emit c = false
                      /\ backend_entry c = None
                      /\ derives_from c cls_Emittable = false
                      /\ derives_from c cls_Localizable = true)
            (cls_SemiExpression :: semi_forms).
Proof.
  unfold own_entry_kinds, simple_kinds, structural_kinds, binary_forms,
    semi_forms.
  rewrite statement_kinds_eq. cbn [app].
  split; [| split];
    repeat (apply Forall_cons; [repeat split |]); apply Forall_nil.
Qed.

(** ** Propagation of failure *)

Lemma emitSequence_ext (St A : Type) (f g : A -> Emit St) :
  (forall x st, f x st = g x st) ->
  forall l st, emitSequence f l st = emitSequence g l st.
Proof.
  intros E l. induction l as [| x l IH]; intros st; simpl; [reflexivity |].
  unfold guarded. rewrite E. destruct (g x st) as [ok st'].
  destruct ok; [apply IH | reflexivity].
Qed.

(** A sequence whose emission succeeds up to an element that fails
    stops there: the result is the failure, in the state the failing
    element left, whatever follows it. *)
Lemma emitSequence_stops (St A : Type) (f : A -> Emit St)
  (pre : list A) (x : A) (post : list A) :
  forall st st1 st2,
    emitSequence f pre st = (true, st1) ->
    f x st1 = (false, st2) ->
    emitSequence f (pre ++ x :: post) st = (false, st2).
Proof.
  induction pre as [| y pre IH]; simpl; intros st st1 st2 P F.
  - unfold succeed in P. injection P as <-. unfold guarded. now rewrite F.
  - unfold guarded in *. destruct (f y st) as [ok st'].
    destruct ok; [| discriminate P].
    now apply (IH st' st1 st2).
Qed.

Section PolicyFacts.
Variable St : Type.
Variable own : Emitter St.

Lemma Expression_emit_policy (e : Expression) :
  Expression_emit (policy_Emitter own) e = policy_Expression own e.
Proof. destruct e; reflexivity. Qed.

Lemma Statement_emit_policy (s : Statement) :
  Statement_emit (policy_Emitter own) s = policy_Statement own s.
Proof. destruct s; reflexivity. Qed.

Lemma emitStatements_policy (l : PointerList Statement) (st : St) :
  emitStatements own l st = emitSequence (policy_Statement own) l st.
Proof.
  unfold emitStatements. apply emitSequence_ext.
  intros s st'. now rewrite Statement_emit_policy.
Qed.

(** The entry point for binary expressions emits the left operand, then
    the right one, then does its own work, each step guarded. *)
Lemma BinaryExpression_emit_policy (b : BinaryExpression) :
  BinaryExpression_emit (policy_Emitter own) b
  = guarded (Expression_emit (policy_Emitter own) (BinaryExpression_getLeft b))
      (guarded
         (Expression_emit (policy_Emitter own) (BinaryExpression_getRight b))
         (emit_BinaryExpression own b)).
Proof.
  destruct b as [base l o r].
  unfold BinaryExpression_emit; simpl.
  now rewrite !Expression_emit_policy.
Qed.

(** C8: with a backend that follows the propagation policy, whatever it
    does for each node by itself: a statement sequence whose emission
    reaches a statement that fails reports failure in the very state the
    failing statement left, so no later statement of the sequence is
    emitted, and a loop with such a body fails likewise; a binary
    expression whose left operand fails reports failure in the state the
    left operand left, so the right operand is not emitted. *)
Theorem emission_stops_at_first_failure :
  (forall (pre : list Statement) (s : Statement) (post : list Statement)
          (st st1 st2 : St),
      emitStatements own pre st = (true, st1) ->
      Statement_emit (policy_Emitter own) s st1 = (false, st2) ->
      emitStatements own (pre ++ s :: post) st = (false, st2)
      /\ forall (base : Localizable) (c : Expression),
           Loop_emit (policy_Emitter own) (mkLoop base (pre ++ s :: post) c) st
           = (false, st2))
  /\ (forall (b : BinaryExpression) (st st' : St),
        Expression_emit (policy_Emitter own) (BinaryExpression_getLeft b) st
        = (false, st') ->
        BinaryExpression_emit (policy_Emitter own) b st = (false, st')).
Proof.
  split.
  - intros pre s post st st1 st2 P F.
    assert (emitStatements own (pre ++ s :: post) st = (false, st2)) as K
      by (unfold emitStatements in *; now apply emitSequence_stops with st1).
    split; [exact K |].
    intros base c. unfold Loop_emit; simpl. unfold guarded at 1.
    rewrite <- emitStatements_policy, K. reflexivity.
  - intros b st st' F. rewrite BinaryExpression_emit_policy.
    unfold guarded at 1. now rewrite F.
Qed.
End PolicyFacts.

Lemma emission_stops_at_first_failure_witness :
  emitStatements (log_Emitter (fails_on cls_Abort))
    [sample_Print 1 1; sample_Abort 2; sample_Print 3 3] []
  = (false,
     [(cls_Integer, at_line 1); (cls_Print, at_line 1);
      (cls_Abort, at_line 2)])
  /\ BinaryExpression_emit (policy_Emitter (log_Emitter (fails_on cls_Id)))
       (ExpShl (Expr_Id (sample_Id "x" 4))
               (Expr_Integer (sample_Integer 2 5))) []
     = (false, [(cls_Id, at_line 4)]).
Proof.
  split.
  - destruct (emission_stops_at_first_failure _
                (log_Emitter (fails_on cls_Abort))) as [K _].
    apply (K [sample_Print 1 1] (sample_Abort 2) [sample_Print 3 3] []
             [(cls_Integer, at_line 1); (cls_Print, at_line 1)]);
      reflexivity.
  - destruct (emission_stops_at_first_failure _
                (log_Emitter (fails_on cls_Id))) as [_ K].
    apply K. reflexivity.
Defined.

(* ================================================================== *)
(** * Further properties of the header *)

(** ** The comparisons as container keys *)

(** X1: [operator==] on identifiers is an equivalence relation: it is
    reflexive, symmetric and transitive. *)
Theorem Id_operator_eq_equivalence :
  (forall a : Id, Id_operator_eq a a = true)
  /\ (forall a b : Id, Id_operator_eq a b = Id_operator_eq b a)
  /\ (forall a b c : Id,
        Id_operator_eq a b = true -> Id_operator_eq b c = true ->
        Id_operator_eq a c = true).
Proof.
  split; [| split].
  - intros a. now apply Id_operator_eq_iff.
  - intros a b. unfold Id_operator_eq. apply String.eqb_sym.
  - intros a b c. rewrite !Id_operator_eq_iff. congruence.
Qed.

Lemma Id_operator_eq_equivalence_witness :
  Id_operator_eq (sample_Id "a" 1) (sample_Id "a" 3) = true.
Proof.
  destruct Id_operator_eq_equivalence as [_ [_ T]].
  apply (T (sample_Id "a" 1) (sample_Id "a" 2) (sample_Id "a" 3));
    reflexivity.
Defined.

Section KeyFacts.
Context {H : StdHash}.

(** X2: [operator==] on prototypes is an equivalence relation, and
    [hash_value] agrees with it: prototypes that compare equal hash
    alike, as a hashed container requires of its key. *)
Theorem FunctionPrototype_operator_eq_equivalence :
  (forall a : FunctionPrototype, FunctionPrototype_operator_eq a a = true)
  /\ (forall a b : FunctionPrototype,
        FunctionPrototype_operator_eq a b = FunctionPrototype_operator_eq b a)
  /\ (forall a b c : FunctionPrototype,
        FunctionPrototype_operator_eq a b = true ->
        FunctionPrototype_operator_eq b c = true ->
        FunctionPrototype_operator_eq a c = true)
  /\ (forall a b : FunctionPrototype,
        FunctionPrototype_operator_eq a b = true ->
        FunctionPrototype_hash_value a = FunctionPrototype_hash_value b).
Proof.
  unfold FunctionPrototype_operator_eq.
  split; [| split; [| split]].
  - intros a. now apply Id_operator_eq_iff.
  - intros a b. unfold Id_operator_eq. apply String.eqb_sym.
  - intros a b c. rewrite !Id_operator_eq_iff. congruence.
  - intros a b E. apply Id_operator_eq_iff in E.
    unfold FunctionPrototype_hash_value. now rewrite E.
Qed.

(** X3: [operator==] on modules is an equivalence relation. *)
Theorem Module_operator_eq_equivalence :
  (forall a : Module, Module_operator_eq a a = true)
  /\ (forall a b : Module, Module_operator_eq a b = Module_operator_eq b a)
  /\ (forall a b c : Module,
        Module_operator_eq a b = true -> Module_operator_eq b c = true ->
        Module_operator_eq a c = true).
Proof.
  split; [| split].
  - intros a. apply Module_operator_eq_iff. now split.
  - intros a b. unfold Module_operator_eq.
    rewrite (String.eqb_sym (Module_getName a)).
    f_equal. now destruct (Module_getType a), (Module_getType b).
  - intros a b c. rewrite !Module_operator_eq_iff.
    intros [? ?] [? ?]. split; congruence.
Qed.

Lemma N_lxor_cancel_l (x y z : N) : N.lxor x y = N.lxor x z -> y = z.
Proof.
  intros E.
  rewrite <- (N.lxor_0_l y), <- (N.lxor_0_l z).
  rewrite <- (N.lxor_nilpotent x), !N.lxor_assoc. now rewrite E.
Qed.

(** X4: for two modules of the same name, the hashes are equal exactly
    when the library hashes of the two kinds, converted to [bool], are
    equal: the exclusive or with the hash of the name loses nothing of
    the kind. *)
Theorem Module_hash_value_same_name (a b : Module) :
  Module_getName a = Module_getName b ->
  (Module_hash_value a = Module_hash_value b
   <-> hash_bool (ModuleType_to_bool (Module_getType a))
       = hash_bool (ModuleType_to_bool (Module_getType b))).
Proof.
  intros En. unfold Module_hash_value. rewrite En. split.
  - apply N_lxor_cancel_l.
  - intros E. now rewrite E.
Qed.

(** X5: the location of a module takes no part in its key: a module
    moved to another location compares and hashes as before, and adding
    it to a program that received the module already changes nothing, so
    the stored module is the one added first. *)
Theorem Module_setLocation_same_key (l : location) (a b : Module)
  (p : Program) :
  Module_operator_eq (Module_setLocation l a) b = Module_operator_eq a b
  /\ Module_hash_value (Module_setLocation l a) = Module_hash_value a
  /\ Program_addModule (Module_setLocation l a) (Program_addModule a p)
     = Program_addModule a p.
Proof.
  split; [reflexivity |]. split; [reflexivity |].
  unfold Program_addModule at 1. simpl.
  rewrite PointerSet_insert_present.
  - reflexivity.
  - apply Module_hash_value_eq.
  - rewrite <- (present_congr Module Module_operator_eq
                  Module_operator_eq_sym Module_operator_eq_trans
                  _ a (Module_setLocation l a)).
    + apply present_insert.
      * apply Module_operator_eq_refl.
      * apply Module_hash_value_eq.
    + apply Module_operator_eq_iff. now split.
Qed.
End KeyFacts.

Lemma FunctionPrototype_operator_eq_equivalence_witness :
  @FunctionPrototype_hash_value sample_hash sample_prototype_int
  = @FunctionPrototype_hash_value sample_hash sample_prototype_void.
Proof.
  destruct (@FunctionPrototype_operator_eq_equivalence sample_hash)
    as [_ [_ [_ K]]].
  apply K. reflexivity.
Defined.

Lemma Module_operator_eq_equivalence_witness :
  Module_operator_eq (sample_Module "io" USER 1) (sample_Module "io" USER 9)
  = true.
Proof.
  destruct Module_operator_eq_equivalence as [_ [_ T]].
  apply (T _ (sample_Module "io" USER 4) _); reflexivity.
Defined.

Lemma Module_hash_value_same_name_witness :
  @Module_hash_value sample_hash (sample_Module "io" SYSTEM 1)
  <> @Module_hash_value sample_hash (sample_Module "io" USER 1).
Proof.
  intros E.
  apply (@Module_hash_value_same_name sample_hash
           (sample_Module "io" SYSTEM 1) (sample_Module "io" USER 1)) in E;
    [discriminate E | reflexivity].
Defined.

(** ** The module set under sequences of calls *)

Section PointerSetMore.
Variable T : Type.
Variable hash : T -> N.
Variable equal : T -> T -> bool.
Hypothesis equal_refl : forall x, equal x x = true.
Hypothesis equal_sym : forall x y, equal x y = equal y x.
Hypothesis equal_trans :
  forall x y z, equal x y = true -> equal y z = true -> equal x z = true.
Hypothesis hash_equal : forall x y, equal x y = true -> hash x = hash y.

(** After [insert] of [x], an element equal to [z] is stored when one
    was stored before or when [x] itself is equal to [z]. *)
Lemma present_insert_other (s : PointerSet T) (x z : T) :
  existsb (fun y => equal y z) (PointerSet_insert hash equal s x)
  = existsb (fun y => equal y z) s || equal x z.
Proof.
  destruct (existsb (fun y => equal y x) s) eqn:P.
  - rewrite (PointerSet_insert_present T hash equal hash_equal s x P).
    destruct (equal x z) eqn:E; [| now rewrite orb_false_r].
    rewrite <- (present_congr T equal equal_sym equal_trans s x z E), P.
    reflexivity.
  - rewrite (PointerSet_insert_absent T hash equal hash_equal s x P).
    rewrite existsb_app. simpl. now rewrite orb_false_r.
Qed.

Lemma length_insert (s : PointerSet T) (x : T) :
  List.length (PointerSet_insert hash equal s x)
  = (List.length s
     + if existsb (fun y => equal y x) s then 0 else 1)%nat.
Proof.
  destruct (existsb (fun y => equal y x) s) eqn:P.
  - rewrite (PointerSet_insert_present T hash equal hash_equal s x P).
    now rewrite Nat.add_0_r.
  - rewrite (PointerSet_insert_absent T hash equal hash_equal s x P).
    now rewrite length_app.
Qed.

Lemma insert_extends (s : PointerSet T) (x : T) :
  exists rest, PointerSet_insert hash equal s x = s ++ rest.
Proof.
  unfold PointerSet_insert.
  destruct (PointerSet_contains hash equal s x).
  - exists []. now rewrite app_nil_r.
  - now exists [x].
Qed.

Lemma length_insert_insert (s : PointerSet T) (x y : T) :
  List.length (PointerSet_insert hash equal (PointerSet_insert hash equal s x) y)
  = List.length
      (PointerSet_insert hash equal (PointerSet_insert hash equal s y) x).
Proof.
  rewrite !length_insert, !present_insert_other.
  rewrite (equal_sym y x).
  destruct (equal x y) eqn:E.
  - rewrite !orb_true_r.
    now rewrite (present_congr T equal equal_sym equal_trans s x y E).
  - rewrite !orb_false_r.
    rewrite <- !Nat.add_assoc. f_equal. apply Nat.add_comm.
Qed.
End PointerSetMore.

Section ProgramRuns.
Context {H : StdHash}.

Lemma Program_run_app (cs cs' : list Program_call) (p : Program) :
  Program_run (cs ++ cs') p = Program_run cs' (Program_run cs p).
Proof. unfold Program_run. apply fold_left_app. Qed.

Lemma Program_run_functions (cs : list Program_call) :
  forall p : Program,
    Program_functions (Program_run cs p)
    = Program_functions p ++ added_functions cs.
Proof.
  induction cs as [| c cs IH]; intros p; simpl.
  - now rewrite app_nil_r.
  - change (Program_functions (Program_run cs (Program_apply c p))
            = Program_functions p
              ++ (match c with call_addFunction f => [f] | _ => [] end)
              ++ added_functions cs).
    rewrite IH. destruct c; simpl; try reflexivity.
    unfold push_back. now rewrite <- app_assoc.
Qed.

(** X6: the functions of a program built by any sequence of calls are
    the arguments of its [addFunction] calls, in call order; the calls of
    [setMain] and [addModule] in between leave no trace there. *)
Theorem Program_build_functions (cs : list Program_call) :
  Program_getFunctions (Program_build cs) = added_functions cs.
Proof.
  unfold Program_getFunctions.
  change (Program_build cs) with (Program_run cs Program_new).
  now rewrite Program_run_functions.
Qed.

Lemma Program_run_main_kept (cs : list Program_call) :
  forall p : Program,
    forallb (fun c => negb (is_setMain c)) cs = true ->
    Program_main (Program_run cs p) = Program_main p.
Proof.
  induction cs as [| c cs IH]; intros p N; simpl; [reflexivity |].
  simpl in N. apply andb_true_iff in N. destruct N as [Nc Ncs].
  change (Program_main (Program_run cs (Program_apply c p)) = Program_main p).
  rewrite (IH _ Ncs). destruct c; simpl in *; [discriminate Nc | | ];
    reflexivity.
Qed.

(** X7: the main function of a built program is the argument of the
    last [setMain] call, a null argument clearing it; with no [setMain]
    call at all the program has no main. *)
Theorem Program_build_main (cs post : list Program_call)
  (m : Pointer Function) :
  forallb (fun c => negb (is_setMain c)) post = true ->
  Program_getMain (Program_build (cs ++ call_setMain m :: post))
  = maybe_return m
  /\ Program_getMain (Program_build post) = None.
Proof.
  intros N. unfold Program_getMain. split.
  - change (Program_build (cs ++ call_setMain m :: post))
      with (Program_run (cs ++ call_setMain m :: post) Program_new).
    rewrite Program_run_app.
    change (Program_run (call_setMain m :: post)
              (Program_run cs Program_new))
      with (Program_run post (Program_setMain m (Program_run cs Program_new))).
    now rewrite (Program_run_main_kept post _ N).
  - change (Program_build post) with (Program_run post Program_new).
    now rewrite (Program_run_main_kept post _ N).
Qed.

Lemma Program_run_present (cs : list Program_call) (m : Module) :
  forall p : Program,
    existsb (fun y => Module_operator_eq y m)
      (Program_modules (Program_run cs p))
    = existsb (fun y => Module_operator_eq y m) (Program_modules p)
      || existsb (adds_module_like m) cs.
Proof.
  induction cs as [| c cs IH]; intros p; simpl.
  - now rewrite orb_false_r.
  - change (existsb (fun y => Module_operator_eq y m)
              (Program_modules (Program_run cs (Program_apply c p)))
            = existsb (fun y => Module_operator_eq y m) (Program_modules p)
              || (adds_module_like m c || existsb (adds_module_like m) cs)).
    rewrite IH, orb_assoc. f_equal.
    destruct c as [f | f | m']; simpl; try now rewrite orb_false_r.
    apply present_insert_other.
    + apply Module_operator_eq_sym.
    + apply Module_operator_eq_trans.
    + apply Module_hash_value_eq.
Qed.

(** X8: in a program built by any sequence of calls, the number of
    stored modules that compare equal to a given module is one when some
    [addModule] call passed a module equal to it, and zero otherwise:
    nothing added is lost and nothing is stored twice. *)
Theorem Program_build_module_count (cs : list Program_call) (m : Module) :
  PointerSet_count Module_operator_eq
    (Program_getModules (Program_build cs)) m
  = if existsb (adds_module_like m) cs then 1%nat else 0%nat.
Proof.
  unfold Program_getModules.
  pose proof (Program_run_present cs m Program_new) as P.
  change (Program_run cs Program_new) with (Program_build cs) in P.
  simpl in P.
  destruct (existsb (adds_module_like m) cs).
  - apply PointerSet_count_present.
    + apply Module_operator_eq_sym.
    + apply Module_operator_eq_trans.
    + apply Program_build_wf.
    + exact P.
  - apply PointerSet_count_absent. exact P.
Qed.

Lemma Program_run_modules_extend (cs : list Program_call) :
  forall p : Program,
    exists rest,
      Program_modules (Program_run cs p) = Program_modules p ++ rest.
Proof.
  induction cs as [| c cs IH]; intros p; simpl.
  - exists []. now rewrite app_nil_r.
  - change (exists rest,
              Program_modules (Program_run cs (Program_apply c p))
              = Program_modules p ++ rest).
    destruct (IH (Program_apply c p)) as [rest E]. rewrite E.
    destruct c as [f | f | m']; simpl; try now exists rest.
    destruct (insert_extends Module Module_hash_value Module_operator_eq
                (Program_modules p) m') as [r1 E1].
    rewrite E1. exists (r1 ++ rest). now rewrite app_assoc.
Qed.

(** X9: no call removes or replaces a stored module: a module object
    that the set holds is still held after any further calls, and the
    set never gets smaller. *)
Theorem Program_build_modules_kept (cs cs' : list Program_call)
  (m : Module) :
  (List.length (Program_getModules (Program_build cs))
   <= List.length (Program_getModules (Program_build (cs ++ cs'))))%nat
  /\ (In m (Program_getModules (Program_build cs)) ->
      In m (Program_getModules (Program_build (cs ++ cs')))).
Proof.
  unfold Program_getModules.
  change (Program_build (cs ++ cs'))
    with (Program_run (cs ++ cs') Program_new).
  rewrite Program_run_app.
  change (Program_run cs Program_new) with (Program_build cs).
  destruct (Program_run_modules_extend cs' (Program_build cs)) as [rest E].
  rewrite E. split.
  - rewrite length_app. apply Nat.le_add_r.
  - intros I. apply in_or_app. now left.
Qed.

(** X10: the order of two [addModule] calls does not matter for what
    the set holds: either order stores a module equal to a given one in
    the same cases, and stores the same number of modules. *)
Theorem Program_addModule_order (p : Program) (m1 m2 z : Module) :
  existsb (fun y => Module_operator_eq y z)
    (Program_getModules (Program_addModule m2 (Program_addModule m1 p)))
  = existsb (fun y => Module_operator_eq y z)
      (Program_getModules (Program_addModule m1 (Program_addModule m2 p)))
  /\ List.length
       (Program_getModules (Program_addModule m2 (Program_addModule m1 p)))
     = List.length
         (Program_getModules (Program_addModule m1 (Program_addModule m2 p))).
Proof.
  unfold Program_getModules, Program_addModule; simpl. split.
  - rewrite !present_insert_other
      by (first [apply Module_operator_eq_sym
                | apply Module_operator_eq_trans
                | apply Module_hash_value_eq]).
    rewrite <- !orb_assoc. f_equal. apply orb_comm.
  - apply length_insert_insert.
    + apply Module_operator_eq_sym.
    + apply Module_operator_eq_trans.
    + apply Module_hash_value_eq.
Qed.
End ProgramRuns.

Lemma Program_build_modules_kept_witness :
  In (sample_Module "io" SYSTEM 1)
     (Program_getModules
        (@Program_build sample_hash
           ([call_addModule (sample_Module "io" SYSTEM 1)]
            ++ [call_addModule (sample_Module "io" SYSTEM 5);
                call_setMain nullptr;
                call_addModule (sample_Module "io" USER 6)]))).
Proof.
  apply (@Program_build_modules_kept sample_hash
           [call_addModule (sample_Module "io" SYSTEM 1)]
           [call_addModule (sample_Module "io" SYSTEM 5);
            call_setMain nullptr;
            call_addModule (sample_Module "io" USER 6)]
           (sample_Module "io" SYSTEM 1)).
  simpl. left. reflexivity.
Defined.

Lemma Program_build_main_witness :
  let f := Function_new sample_prototype_void [sample_Abort 2] in
  @Program_getMain
    (@Program_build sample_hash
       ([call_setMain nullptr; call_addFunction f]
        ++ call_setMain (ptr f)
        :: [call_addModule (sample_Module "io" SYSTEM 1)]))
  = Some f.
Proof.
  intros f.
  apply (@Program_build_main sample_hash
           [call_setMain nullptr; call_addFunction f]
           [call_addModule (sample_Module "io" SYSTEM 1)] (ptr f)).
  reflexivity.
Defined.

(** ** The class hierarchy *)

(** X11: a class has a member [emit] exactly when it derives from
    [Emittable]; the classes that only derive from [Localizable]
    ([SemiExpression] and its forms, [BranchCase], [Branch::Body],
    [FunArg]) have none. *)
Theorem emit_exactly_on_Emittable (c : Class) :
  exposes_emit c = derives_from c cls_Emittable
  /\ (exposes_emit c = false <->
      In c ([cls_Localizable; cls_SemiExpression; cls_BranchCase;
             cls_Branch_Body; cls_FunArg] ++ semi_forms)).
Proof.
  split; [apply exposes_emit_iff_Emittable |].
  destruct c; vm_compute; split; intros K;
    try discriminate K; try reflexivity; try tauto;
    repeat (destruct K as [K | K]; try discriminate K); contradiction.
Qed.

(** X12: every class of the header is [Localizable] or derives from it:
    every node carries a location. *)
Theorem every_class_Localizable (c : Class) :
  derives_from c cls_Localizable = true.
Proof. destruct c; reflexivity. Qed.

(** X13: [FunctionCall] is the only class that derives from both
    [Statement] and [Expression]. *)
Theorem FunctionCall_only_diamond (c : Class) :
  derives_from c cls_Statement && derives_from c cls_Expression
  = Class_eqb c cls_FunctionCall.
Proof. destruct c; reflexivity. Qed.

(** X14: the member [emit] stays pure in five classes only,
    [Emittable], [Statement], [Expression], [SimpleExpression] and
    [Number]; every other class that derives from [Emittable] has an
    [emit] that calls the backend, so it can be instantiated and
    emitted. *)
Theorem abstract_classes_are_five (c : Class) :
  is_abstract c
  = existsb (Class_eqb c)
      [cls_Emittable; cls_Statement; cls_Expression; cls_SimpleExpression;
       cls_Number]
  /\ (derives_from c cls_Emittable = true -> is_abstract c = false ->
      exists k, backend_entry c = Some k).
Proof.
  split.
  - destruct c; reflexivity.
  - destruct c; vm_compute; intros D A; try discriminate D;
      try discriminate A; eexists; reflexivity.
Qed.

Lemma abstract_classes_are_five_witness :
  exists k, backend_entry cls_ExpShr = Some k.
Proof.
  apply (abstract_classes_are_five cls_ExpShr); reflexivity.
Defined.

(** ** The operators of the forms *)

(** X15: apart from the two shifts, every partial form carries the
    operator of the binary form of the same name; [SemiExpEq] carries
    [EQ], which no binary form carries. *)
Theorem forms_operators_agree (l r : Expression) :
  map (fun mk : Expression -> SemiExpression =>
         SemiExpression_getOperator (mk l))
      [SemiExpLt; SemiExpGt; SemiExpLte; SemiExpGte;
       SemiExpPlus; SemiExpMinus; SemiExpTimes; SemiExpDiv]
  = map (fun mk : Expression -> Expression -> BinaryExpression =>
           BinaryExpression_getOperator (mk l r))
        [ExpLt; ExpGt; ExpLte; ExpGte; ExpPlus; ExpMinus; ExpTimes; ExpDiv]
  /\ SemiExpression_getOperator (SemiExpEq l) = EQ
  /\ forallb (fun mk : Expression -> Expression -> BinaryExpression =>
                negb (Operator_eqb (BinaryExpression_getOperator (mk l r)) EQ))
       [ExpLt; ExpGt; ExpLte; ExpGte; ExpPlus; ExpMinus; ExpTimes; ExpDiv;
        ExpShl; ExpShr]
     = true.
Proof. repeat split. Qed.

(** ** Optional members *)



(** ** One backend call per [emit] *)

(** X17: for every backend, the member [emit] of a node is one call of
    the backend, to the entry point of the node's own class with the node
    itself, and returns what that call returns; it visits no child,
    however deep the node.  A function call reaches the same entry point
    whether it is held as a statement or as an expression, and a backend
    that records its calls gets exactly one record per [emit]. *)
Theorem emit_is_one_backend_call (St : Type) (em : Emitter St)
  (fails : Class -> bool) (st : list (Class * location)) :
  ((forall n, Expression_emit em (Expr_Id n) = emit_Id em n)
   /\ (forall n, Expression_emit em (Expr_Integer n) = emit_Integer em n)
   /\ (forall n, Expression_emit em (Expr_Float n) = emit_Float em n)
   /\ (forall n,
         Expression_emit em (Expr_FunctionCall n) = emit_FunctionCall em n)
   /\ (forall n,
         Expression_emit em (Expr_BinaryExpression n)
         = emit_BinaryExpression em n))
  /\ ((forall n, Statement_emit em (Stmt_Return n) = emit_Return em n)
      /\ (forall n, Statement_emit em (Stmt_Loop n) = emit_Loop em n)
      /\ (forall n,
            Statement_emit em (Stmt_VarDeclaration n)
            = emit_VarDeclaration em n)
      /\ (forall n,
            Statement_emit em (Stmt_Assignment n) = emit_Assignment em n)
      /\ (forall n, Statement_emit em (Stmt_Print n) = emit_Print em n)
      /\ (forall n, Statement_emit em (Stmt_Input n) = emit_Input em n)
      /\ (forall n, Statement_emit em (Stmt_Abort n) = emit_Abort em n)
      /\ (forall n, Statement_emit em (Stmt_Assert n) = emit_Assert em n)
      /\ (forall n,
            Statement_emit em (Stmt_FunctionCall n) = emit_FunctionCall em n)
      /\ (forall n, Statement_emit em (Stmt_Branch n) = emit_Branch em n))
  /\ ((forall n, FunctionPrototype_emit em n = emit_FunctionPrototype em n)
      /\ (forall n, Function_emit em n = emit_Function em n)
      /\ (forall n, Module_emit em n = emit_Module em n)
      /\ (forall n, Program_emit em n = emit_Program em n))
  /\ (forall c : FunctionCall,
        Statement_emit em (Stmt_FunctionCall c)
        = Expression_emit em (Expr_FunctionCall c))
  /\ (forall e : Expression,
        Expression_emit (log_Emitter fails) e st
        = (negb (fails (Expression_class e)),
           st ++ [(Expression_class e, getLocation (Expression_base e))])
        /\ backend_entry (Expression_class e) = Some (Expression_class e))
  /\ (forall s : Statement,
        Statement_emit (log_Emitter fails) s st
        = (negb (fails (Statement_class s)),
           st ++ [(Statement_class s, getLocation (Statement_base s))])
        /\ backend_entry (Statement_class s) = Some (Statement_class s)).
Proof.
  split; [repeat split |]. split; [repeat split |].
  split; [repeat split |]. split; [reflexivity |]. split.
  - intros e. destruct e; split; reflexivity.
  - intros s. destruct s; split; reflexivity.
Qed.
